(** * repoctl: command-line front end and repository engine

    The first part of this development embeds the command-line front end of
    repoctl 0.10 (configuration record, action table, [ReadConfig],
    [inform] and [main]).  Console output is kept as a trace of calls on
    the two standard streams, so that statements about "which stream"
    and "which exit status" are statements about values.

    The second part models the package-file engine (file name parser,
    version comparator, plan executor) that the front end calls into. *)

From Stdlib Require Import String Ascii List ZArith Lia Bool.
From Stdlib Require OrdersEx.
From stdpp Require Import base option gmap strings list fin_maps.

Local Open Scope string_scope.
Local Open Scope list_scope.

(** ** Console output *)

(** [os.Stdout] and [os.Stderr]. *)
Inductive stream : Type := Stdout | Stderr.

#[global] Instance stream_eq_dec : EqDecision stream.
Proof. solve_decision. Defined.

(** A Go [error] is known to this program only through its message. *)
Definition error : Type := string.

(** A value handed to [fmt] through [interface{}]: the type switch in
    [inform] distinguishes errors from everything else. *)
Inductive value : Type :=
| VError (e : error)
| VString (s : string).

(** One call into package [fmt].  Format strings are kept as the literals
    of the source (escape sequences unexpanded). *)
Inductive event : Type :=
| Fprintf (w : stream) (format : string) (args : list value)
| Fprintln (w : stream) (args : list value)
| Fprint (w : stream) (args : list value).

Definition event_stream (e : event) : stream :=
  match e with
  | Fprintf w _ _ => w
  | Fprintln w _ => w
  | Fprint w _ => w
  end.

Definition on_stream (w : stream) (e : event) : bool :=
  bool_decide (event_stream e = w).

(** What reaches the primary output stream, in order. *)
Definition primary_output (tr : list event) : list event :=
  filter (fun e => event_stream e = Stdout) tr.

(** What reaches the error stream, in order. *)
Definition error_output (tr : list event) : list event :=
  filter (fun e => event_stream e = Stderr) tr.

(** Every call of a trace writes to the stream [w]. *)
Definition all_on (w : stream) (tr : list event) : Prop :=
  Forall (fun e => event_stream e = w) tr.

(** A computation that writes to the console and returns a value. *)
Definition IO (A : Type) : Type := (list event * A)%type.

Definition io_ret {A} (a : A) : IO A := ([], a).

Definition io_bind {A B} (m : IO A) (k : A -> IO B) : IO B :=
  let (tr1, a) := m in
  let (tr2, b) := k a in
  (tr1 ++ tr2, b).

Definition emit (e : event) : IO unit := ([e], tt).

Definition trace {A} (m : IO A) : list event := fst m.
Definition result {A} (m : IO A) : A := snd m.

#[global] Instance io_mret : MRet IO := @io_ret.
#[global] Instance io_mbind : MBind IO := fun A B k m => io_bind m k.

(** ** Constants *)

Definition progName : string := "repoctl".
Definition progVersion : string := "0.10".
Definition progDate : string := "1. October 2014".
Definition defaultRepo : string := "/srv/abs/atlas.db.tar.gz".

(** ** Configuration *)

Record IniConfig : Type := mkIniConfig {
  Repo : string;
  AddParam : list string;
  RmParam : list string
}.

Record Config : Type := mkConfig {
  ConfigFile : string;
  Repository : string;
  database : string;
  path : string;
  AddParameters : list string;
  RemoveParameters : list string;
  Quiet : bool;
  Columnate : bool;
  Versioned : bool;
  Mode : string;
  Pending : bool;
  Duplicates : bool;
  Installed : bool;
  Synchronize : bool;
  Interactive : bool;
  Backup : bool;
  Args : list string
}.

(** The zero value [Config{}]. *)
Definition zeroConfig : Config :=
  mkConfig "" "" "" "" [] [] false false false "" false false false false
           false false [].

(** Field assignments used by the source. *)
Definition set_Repository (c : Config) (v : string) : Config :=
  mkConfig (ConfigFile c) v (database c) (path c) (AddParameters c)
    (RemoveParameters c) (Quiet c) (Columnate c) (Versioned c) (Mode c)
    (Pending c) (Duplicates c) (Installed c) (Synchronize c)
    (Interactive c) (Backup c) (Args c).

Definition set_database (c : Config) (v : string) : Config :=
  mkConfig (ConfigFile c) (Repository c) v (path c) (AddParameters c)
    (RemoveParameters c) (Quiet c) (Columnate c) (Versioned c) (Mode c)
    (Pending c) (Duplicates c) (Installed c) (Synchronize c)
    (Interactive c) (Backup c) (Args c).

Definition set_path (c : Config) (v : string) : Config :=
  mkConfig (ConfigFile c) (Repository c) (database c) v (AddParameters c)
    (RemoveParameters c) (Quiet c) (Columnate c) (Versioned c) (Mode c)
    (Pending c) (Duplicates c) (Installed c) (Synchronize c)
    (Interactive c) (Backup c) (Args c).

Definition set_AddParameters (c : Config) (v : list string) : Config :=
  mkConfig (ConfigFile c) (Repository c) (database c) (path c) v
    (RemoveParameters c) (Quiet c) (Columnate c) (Versioned c) (Mode c)
    (Pending c) (Duplicates c) (Installed c) (Synchronize c)
    (Interactive c) (Backup c) (Args c).

Definition set_RemoveParameters (c : Config) (v : list string) : Config :=
  mkConfig (ConfigFile c) (Repository c) (database c) (path c)
    (AddParameters c) v (Quiet c) (Columnate c) (Versioned c) (Mode c)
    (Pending c) (Duplicates c) (Installed c) (Synchronize c)
    (Interactive c) (Backup c) (Args c).

Definition set_Args (c : Config) (v : list string) : Config :=
  mkConfig (ConfigFile c) (Repository c) (database c) (path c)
    (AddParameters c) (RemoveParameters c) (Quiet c) (Columnate c)
    (Versioned c) (Mode c) (Pending c) (Duplicates c) (Installed c)
    (Synchronize c) (Interactive c) (Backup c) v.

(** [-a]: the five list options are switched on together. *)
Definition set_allListOptions (c : Config) : Config :=
  mkConfig (ConfigFile c) (Repository c) (database c) (path c)
    (AddParameters c) (RemoveParameters c) (Quiet c) (Columnate c)
    true (Mode c) true true true true
    (Interactive c) (Backup c) (Args c).

(** [Action]: the type every action function satisfies: it takes a pointer
    to a [Config] and returns an [error].  The pointer may be nil, the
    function may print, and it returns an error or nil. *)
Definition Action : Type := option Config -> IO (option error).

(** ** Usage *)

Definition dq : string := String (ascii_of_nat 34) EmptyString.
Definition nl : string := String (ascii_of_nat 10) EmptyString.

(** The lines of the help text printed by [Usage]. *)
Definition usageLines : list string :=
  [ "";
    "Manage local pacman repositories.";
    "";
    "Commands available:";
    "";
    "  list             List packages that belong to the managed repository.";
    "  ls               Options available are:";
    "                    -v --versions   show package versions along with name";
    "                    -d --duplicates mark packages with duplicate package files";
    "                    -p --pending    mark pending changes to the database";
    "                    -l --installed  mark packages that are locally installed";
    "                    -u --outdated   mark packages that are newer in AUR";
    "                    -a --all        same as -vpdlu";
    "";
    "  filter <crit...> Filter list of packages by one or more criteria; each can";
    "                   optionally be prefixed by an exclamation mark ! to negate";
    "                   the filter.";
    "                   Filters available are:";
    "                    duplicates      files to be deleted or backed up";
    "                    pending         packages to be added/removed from database";
    "                    outdated        packages with newer versions in AUR";
    "                    missing         packages not found in AUR";
    "                    local           packages locally installed";
    "";
    "  status           Show pending changes to the database and packages that can";
    "                   be updated.";
    "";
    "  add <pkgname>    Add the latest package(s) with <pkgname> to the database";
    "                   and delete all obsolete package files.";
    "";
    "  remove <pkgname> Remove the package(s) with <pkgname> from the database and";
    "  rm               delete all the corresponding package files.";
    "";
    "  update           Automatically scan the repository for changes and update";
    "                   by changing the database and deleting obsolete package files.";
    "";
    "  reset            Reset the repository database by removing it and adding all";
    "                   up-to-date packages while deleting obsolete package files.";
    "";
    "                   Options available to add, remove, update, and reset are:";
    "                    -i --interactive  ask before doing anything destructive";
    "                    -b --backup       backup obsolete package files instead of";
    "                                      deleting; packages are put into backup/";
    "";
    "  help             Show the usage for repoctl. Synonym for";
    "  usage             repoctl --help";
    "";
    "NOTE: In all of these cases, <pkgname> is the name of the package, without";
    "anything else. For example: pacman, and not pacman-3.5.3-1-i686.pkg.tar.xz";
    "";
    "General options available are:";
    "";
    " -h --help      show this usage message";
    " -q --quiet     only show information when absolutely necessary";
    " -s --columns   show items in columns rather than lines";
    " -c --config    configuration file to load settings from";
    "    --repo      path to repository and database, such as";
    "                " +:+ dq +:+ "/srv/abs/atlas.db.tar.gz" +:+ dq;
    "" ].

Definition usageText : string := String.concat nl usageLines.

(** The help text has a line for the command [cmd]: a line that starts
    with two blanks, the name and a blank. *)
Definition documented (cmd : string) : bool :=
  existsb (String.prefix ("  " +:+ cmd +:+ " ")) usageLines.

(** [Usage] prints the help message for the program. *)
Definition Usage : Action := fun _ =>
  emit (Fprintf Stdout "%s %s (%s)\n"
          [VString progName; VString progVersion; VString progDate]);;
  emit (Fprint Stdout [VString usageText]);;
  mret None.

(** ** The command line after [flag.Parse]

    Flag parsing itself is the work of the flag library.  What the program
    sees afterwards is, per registered flag, the value given on the command
    line (or none), and the positional arguments [flag.Args()]. *)
Record CommandLine : Type := mkCommandLine {
  opt_config : option string;
  opt_repo : option string;
  opt_columns : bool;
  opt_quiet : bool;
  opt_help : bool;
  opt_versioned : bool;
  opt_pending : bool;
  opt_duplicates : bool;
  opt_installed : bool;
  opt_outdated : bool;
  opt_all : bool;
  opt_interactive : bool;
  opt_backup : bool;
  positional : list string
}.

(** The same command line with other positional arguments. *)
Definition set_positional (cl : CommandLine) (args : list string)
  : CommandLine :=
  mkCommandLine (opt_config cl) (opt_repo cl) (opt_columns cl)
    (opt_quiet cl) (opt_help cl) (opt_versioned cl) (opt_pending cl)
    (opt_duplicates cl) (opt_installed cl) (opt_outdated cl) (opt_all cl)
    (opt_interactive cl) (opt_backup cl) args.

(** How [main] ends: by falling off its end (status 0), through
    [os.Exit], or in a run-time panic (calling a nil function). *)
Inductive termination : Type :=
| Returned
| Exit (code : Z)
| Panic.

Definition exit_status (t : termination) : Z :=
  match t with
  | Returned => 0
  | Exit code => code
  | Panic => 2
  end.

Section Program.

(** The surroundings of the program: the environment, the file system
    as seen through the two library calls the program makes, package
    [path], and the action functions defined in other files. *)
Variable defaultConfigPath : string.
Variable FileExists : string -> bool.
Variable DecodeFile : string -> error + IniConfig.
Variables Dir Base : string -> string.
Variables List Update Add Remove Status Filter : Action.

(** [actions] is a map from names to action functions. *)
Definition actions : gmap string Action :=
  list_to_map
    [ ("list", List);
      ("ls", List);
      ("update", Update);
      ("add", Add);
      ("remove", Remove);
      ("rm", Remove);
      ("status", Status);
      ("filter", Filter);
      ("help", Usage);
      ("usage", Usage) ].

(** [NewConfig] creates a minimal configuration. *)
Definition NewConfig (repo : string) : Config :=
  mkConfig "" repo (Base repo) (Dir repo) [] [] false false false ""
           false false false false false false [].

(** [readIniInto]: the configuration is updated in place; on a decoding
    error it is left as it was and the error is returned. *)
Definition readIniInto (file : string) (conf : Config)
  : Config * option error :=
  match DecodeFile file with
  | inl err => (conf, Some err)
  | inr ini =>
      let conf :=
        if decide (Repository conf = "")
        then set_Repository conf (Repo ini)
        else conf in
      let conf := set_AddParameters conf (AddParam ini) in
      let conf := set_RemoveParameters conf (RmParam ini) in
      (conf, None)
  end.

(** The configuration as [flag.Parse] leaves it: every flag variable
    holds the value from the command line or its registered default. *)
Definition parsedConfig (cl : CommandLine) : Config :=
  mkConfig (default defaultConfigPath (opt_config cl))
           (default "" (opt_repo cl))
           "" "" [] []
           (opt_quiet cl) (opt_columns cl) (opt_versioned cl) ""
           (opt_pending cl) (opt_duplicates cl) (opt_installed cl)
           (opt_outdated cl) (opt_interactive cl) (opt_backup cl) [].

(** The configuration file can be used: it is absent, or it decodes. *)
Definition config_usable (cl : CommandLine) : Prop :=
  FileExists (ConfigFile (parsedConfig cl)) = false \/
  exists ini, DecodeFile (ConfigFile (parsedConfig cl)) = inr ini.

(** [ReadConfig] reads a configuration from the command line
    arguments. *)
Definition ReadConfig (cl : CommandLine)
  : IO (option Config * option Action * option error) :=
  let conf := parsedConfig cl in
  if opt_help cl then mret (None, Some Usage, None)
  else
    r ← (if FileExists (ConfigFile conf)
         then mret (readIniInto (ConfigFile conf) conf)
         else
           emit (Fprintf Stderr "Warning: missing config file %q.\n"
                   [VString (ConfigFile conf)]);;
           mret (conf, None));
    match r with
    | (_, Some err) => mret (None, None, Some err)
    | (conf, None) =>
        conf ← (if decide (Repository conf = "")
                then
                  emit (Fprintf Stderr
                          "Warning: missing repository, using %q.\n"
                          [VString defaultRepo]);;
                  mret (set_Repository conf defaultRepo)
                else mret conf);
        let conf := set_path conf (Dir (Repository conf)) in
        let conf := set_database conf (Base (Repository conf)) in
        match positional cl with
        | [] =>
            mret (None, Some Usage,
                  Some "no action specified on command line")
        | arg0 :: rest =>
            let conf :=
              if opt_all cl then set_allListOptions conf else conf in
            let conf := set_Args conf rest in
            match actions !! arg0 with
            | None =>
                mret (None, Some Usage,
                      Some ("unrecognized action " +:+ arg0))
            | Some cmd => mret (Some conf, Some cmd, None)
            end
        end
    end.

(** [inform]: print a value, or a warning for an error, unless quiet. *)
Definition inform (c : Config) (v : value) : IO unit :=
  if negb (Quiet c) then
    match v with
    | VError e => emit (Fprintf Stderr "warning: %s\n" [VError e])
    | _ => emit (Fprintln Stderr [v])
    end
  else mret tt.

(** [main].  The value returned by the action is dropped. *)
Definition main (cl : CommandLine) : IO termination :=
  r ← ReadConfig cl;
  match r with
  | (_, _, Some err) =>
      emit (Fprintln Stdout [VString "Error:"; VError err]);;
      emit (Fprintln Stdout []);;
      Usage None;;
      mret (Exit 1)
  | (conf, Some cmd, None) =>
      cmd conf;;
      mret Returned
  | (_, None, None) => mret Panic
  end.

End Program.

(** ** Strings split at a separator *)

(** The fields of [s] between occurrences of [sep]; never empty. *)
Fixpoint split_on (sep : ascii) (s : string) : list string :=
  match s with
  | EmptyString => [EmptyString]
  | String c s' =>
      if Ascii.eqb c sep then EmptyString :: split_on sep s'
      else match split_on sep s' with
           | [] => [String c EmptyString]
           | w :: ws => String c w :: ws
           end
  end.

(** The fields put back together with [sep] between them. *)
Definition join_with (sep : ascii) (l : list string) : string :=
  String.concat (String sep EmptyString) l.

(** Does [c] occur in [s]? *)
Fixpoint has_char (c : ascii) (s : string) : bool :=
  match s with
  | EmptyString => false
  | String d s' => Ascii.eqb d c || has_char c s'
  end.

(** ** Package [path] of the Go library

    The program calls [path.Dir] and [path.Base]; the section above keeps
    them abstract.  This module gives the two functions as the library
    documents them, to run the program on concrete command lines. *)
Module GoPath.

Definition slash : ascii := "/"%char.

(** Drop the empty fields at the front of a list of fields. *)
Fixpoint strip_leading_empty (l : list string) : list string :=
  match l with
  | [] => []
  | s :: l' => if decide (s = "") then strip_leading_empty l' else l
  end.

(** Drop the empty fields at the end of a list of fields. *)
Definition strip_trailing_empty (l : list string) : list string :=
  rev (strip_leading_empty (rev l)).

(** [path.Base]: the last element of the path, trailing slashes
    removed; "." for the empty path and "/" for a path of slashes. *)
Definition Base (p : string) : string :=
  if decide (p = "") then "."
  else match last (strip_trailing_empty (split_on slash p)) with
       | None => "/"
       | Some elt => if decide (elt = "") then "/" else elt
       end.

(** One element of a path under [path.Clean], with the elements kept so
    far in reverse order. *)
Definition clean_step (rooted : bool) (kept : list string) (elt : string)
  : list string :=
  if decide (elt = "") then kept
  else if decide (elt = ".") then kept
  else if decide (elt = "..") then
    match kept with
    | top :: below =>
        if decide (top = "..") then elt :: kept else below
    | [] => if rooted then kept else [elt]
    end
  else elt :: kept.

(** [path.Clean]. *)
Definition Clean (p : string) : string :=
  match p with
  | EmptyString => "."
  | String c _ =>
      let rooted := Ascii.eqb c slash in
      let kept := rev (fold_left (clean_step rooted) (split_on slash p) []) in
      if rooted then "/" +:+ join_with slash kept
      else match kept with
           | [] => "."
           | _ => join_with slash kept
           end
  end.

(** The directory half of [path.Split]: everything up to and including
    the final slash. *)
Definition split_dir (p : string) : string :=
  match rev (split_on slash p) with
  | [] => ""
  | _ :: before => join_with slash (rev (EmptyString :: before))
  end.

(** [path.Dir]: all but the last element of the path, cleaned. *)
Definition Dir (p : string) : string :=
  match rev (split_on slash p) with
  | [] | [_] => Clean ""
  | _ => Clean (split_dir p)
  end.

End GoPath.

(** * The repository engine *)

(** ** Package identity parser *)

Record PackageIdentity : Type := mkPackageIdentity {
  name : string;
  version : string;
  release : string;
  architecture : string;
  sourcePath : string
}.

(** [s] cut at its first occurrence of [c]: the text before it and the
    text after it. *)
Fixpoint cut_at (c : ascii) (s : string) : option (string * string) :=
  match s with
  | EmptyString => None
  | String d s' =>
      if Ascii.eqb d c then Some (EmptyString, s')
      else match cut_at c s' with
           | Some (before, after) => Some (String d before, after)
           | None => None
           end
  end.

(** Modelled from the spec: the Package Identity Parser, which is not
    among the sources.  A file name in the canonical format
    [name-version-release-architecture.<ext>] is decomposed from the
    right: the last three dash-separated fields are the version, the
    release and the architecture followed by the extension; what is left
    in front (at least one field) is the name.  Anything else is a
    malformed file name. *)
Definition parse (filename : string) : option PackageIdentity :=
  match rev (split_on "-" filename) with
  | last :: rel :: ver :: n :: ns =>
      match cut_at "." last with
      | Some (arch, _) =>
          Some (mkPackageIdentity (join_with "-" (rev (n :: ns)))
                                  ver rel arch filename)
      | None => None
      end
  | _ => None
  end.

(** Modelled from the spec: the extension of a package file, the text
    after the first dot of the last dash-separated field of its path. *)
Definition extension (file : string) : string :=
  match rev (split_on "-" file) with
  | last :: _ =>
      match cut_at "." last with
      | Some (_, ext) => ext
      | None => EmptyString
      end
  | [] => EmptyString
  end.

(** Modelled from the spec: the canonical file name of an identity.  The
    identity has no field for the extension; it is that of the file the
    identity was read from. *)
Definition serialize (p : PackageIdentity) : string :=
  name p +:+ "-" +:+ version p +:+ "-" +:+ release p +:+ "-" +:+
  architecture p +:+ "." +:+ extension (sourcePath p).

(** ** Version comparator *)

(** A maximal run of digits, by its numeric value, or a maximal run of
    letters. *)
Inductive run : Type :=
| Num (n : N)
| Alpha (s : string).

Definition is_digit (c : ascii) : bool :=
  let n := N_of_ascii c in (48 <=? n)%N && (n <=? 57)%N.

Definition is_letter (c : ascii) : bool :=
  let n := N_of_ascii c in
  ((65 <=? n)%N && (n <=? 90)%N) || ((97 <=? n)%N && (n <=? 122)%N).

Definition digit_value (c : ascii) : N := (N_of_ascii c - 48)%N.

Definition flush (cur : option run) : list run :=
  match cur with
  | Some r => [r]
  | None => []
  end.

(** The runs of the rest of a string, [cur] being the run under way.  Any
    character that is neither a digit nor a letter only separates runs. *)
Fixpoint runs_from (cur : option run) (s : string) : list run :=
  match s with
  | EmptyString => flush cur
  | String c s' =>
      if is_digit c then
        match cur with
        | Some (Num n) => runs_from (Some (Num (10 * n + digit_value c))) s'
        | _ => flush cur ++ runs_from (Some (Num (digit_value c))) s'
        end
      else if is_letter c then
        match cur with
        | Some (Alpha w) => runs_from (Some (Alpha (w +:+ String c EmptyString))) s'
        | _ => flush cur ++ runs_from (Some (Alpha (String c EmptyString))) s'
        end
      else flush cur ++ runs_from None s'
  end.

Definition runs (s : string) : list run := runs_from None s.

(** Two runs at the same position: numbers by value, letters
    lexicographically, and letters below numbers. *)
Definition cmp_run (x y : run) : comparison :=
  match x, y with
  | Num m, Num n => N.compare m n
  | Alpha s, Alpha t => OrdersEx.String_as_OT.compare s t
  | Alpha _, Num _ => Lt
  | Num _, Alpha _ => Gt
  end.

(** Run by run; when one side has run out, a further run of letters on
    the other side makes that side the lesser, a further run of digits
    makes it the greater. *)
Fixpoint cmp_runs (xs ys : list run) : comparison :=
  match xs, ys with
  | [], [] => Eq
  | [], Alpha _ :: _ => Gt
  | [], Num _ :: _ => Lt
  | Alpha _ :: _, [] => Lt
  | Num _ :: _, [] => Gt
  | x :: xs', y :: ys' =>
      match cmp_run x y with
      | Eq => cmp_runs xs' ys'
      | r => r
      end
  end.

(** The decimal value of a string of digits; nothing for any other
    string. *)
Definition number (s : string) : option N :=
  match runs s with
  | [Num n] => if forallb is_digit (list_ascii_of_string s) then Some n else None
  | _ => None
  end.

(** A version string [[epoch:]version[-release]] taken apart: the epoch
    (0 if absent), the runs of the base version and those of the
    release. *)
Definition split_version (v : string) : N * list run * list run :=
  let '(epoch, rest) :=
    match cut_at ":" v with
    | Some (e, rest) =>
        match number e with
        | Some n => (n, rest)
        | None => (0%N, v)
        end
    | None => (0%N, v)
    end in
  match rev (split_on "-" rest) with
  | rel :: b :: bs => (epoch, runs (join_with "-" (rev (b :: bs))), runs rel)
  | _ => (epoch, runs rest, [])
  end.

(** Modelled from the spec: the Version Comparator, which is not among
    the sources: epoch first, then the base versions, then the
    releases. *)
Definition vercmp (a b : string) : comparison :=
  let '(ea, va, ra) := split_version a in
  let '(eb, vb, rb) := split_version b in
  match N.compare ea eb with
  | Eq =>
      match cmp_runs va vb with
      | Eq => cmp_runs ra rb
      | r => r
      end
  | r => r
  end.

Definition version_lt (a b : string) : Prop := vercmp a b = Lt.

(** Two comparisons in sequence: the second decides when the first finds
    no difference. *)
Definition then_cmp (r1 r2 : comparison) : comparison :=
  match r1 with
  | Eq => r2
  | Lt => Lt
  | Gt => Gt
  end.

(** The comparator on versions already taken apart. *)
Definition cmp_version (x y : N * list run * list run) : comparison :=
  let '(ea, va, ra) := x in
  let '(eb, vb, rb) := y in
  then_cmp (N.compare ea eb) (then_cmp (cmp_runs va vb) (cmp_runs ra rb)).

(** ** Plan executor *)

(** The repository on disk: the package files of the repository
    directory with their contents, the backup subdirectory (absent until
    it is first needed), and the index, which records for a package name
    the file it was added from. *)
Record RepoState : Type := mkRepoState {
  files : gmap string string;
  backup_dir : option (gmap string string);
  index : gmap string string
}.

(** The primitive mutations of a plan. *)
Inductive mutation : Type :=
| CopyIn (file data : string)
| IndexAdd (pkg file : string)
| IndexRemove (pkg : string)
| Dispose (file : string).

(** Deleting, moving to the backup and removing from the index are the
    destructive mutations. *)
Definition destructive (m : mutation) : bool :=
  match m with
  | CopyIn _ _ | IndexAdd _ _ => false
  | IndexRemove _ | Dispose _ => true
  end.

(** The suffix that marks a file as backed up. *)
Definition backup_suffix : string := ".bak".

(** Modelled from the spec: the backup policy for one obsolete file,
    which is carried out by code that is not among the sources.  With
    backup mode on the file is moved, under its name with the suffix
    added, into the backup subdirectory, which is created if it is not
    there; with backup mode off it is deleted.  A file that is not in the
    repository directory is left alone. *)
Definition dispose (c : Config) (file : string) (r : RepoState) : RepoState :=
  match files r !! file with
  | None => r
  | Some data =>
      if Backup c then
        mkRepoState (delete file (files r))
               (Some (<[file +:+ backup_suffix := data]>
                        (default ∅ (backup_dir r))))
               (index r)
      else
        mkRepoState (delete file (files r)) (backup_dir r) (index r)
  end.

(** The backup policy applied to a list of obsolete files. *)
Definition dispose_all (c : Config) (obsolete : list string) (r : RepoState)
  : RepoState :=
  fold_left (fun r file => dispose c file r) obsolete r.

(** Modelled from the spec: the effect of one mutation that is carried
    out and succeeds. *)
Definition apply_mutation (c : Config) (m : mutation) (r : RepoState) : RepoState :=
  match m with
  | CopyIn file data =>
      mkRepoState (<[file := data]> (files r)) (backup_dir r) (index r)
  | IndexAdd pkg file =>
      mkRepoState (files r) (backup_dir r) (<[pkg := file]> (index r))
  | IndexRemove pkg =>
      mkRepoState (files r) (backup_dir r) (delete pkg (index r))
  | Dispose file => dispose c file r
  end.

(** What became of one mutation of a plan. *)
Inductive outcome : Type :=
| Done
| Declined
| Failed.

(** Modelled from the spec: one step of the executor.  In interactive
    mode a destructive mutation is carried out only if it is confirmed;
    declining skips that mutation alone.  A mutation that is carried out
    may fail ([fails] tells, for the state it is tried in): then it
    changes nothing and the failure is recorded.  In every case the
    executor goes on with the rest of the plan. *)
Definition step (c : Config) (confirm : mutation -> bool)
    (fails : RepoState -> mutation -> bool)
    (r : RepoState) (m : mutation) : RepoState * outcome :=
  if Interactive c && destructive m && negb (confirm m) then (r, Declined)
  else if fails r m then (r, Failed)
  else (apply_mutation c m r, Done).

(** Modelled from the spec: the executor runs the plan in order and
    returns the repository it leaves with the outcome of each mutation. *)
Fixpoint run_plan (c : Config) (confirm : mutation -> bool)
    (fails : RepoState -> mutation -> bool)
    (plan : list mutation) (r : RepoState)
  : RepoState * list (mutation * outcome) :=
  match plan with
  | [] => (r, [])
  | m :: rest =>
      let (r1, o) := step c confirm fails r m in
      let (r', report) := run_plan c confirm fails rest r1 in
      (r', (m, o) :: report)
  end.


(** The same three mutations with the destructive one first. *)
Definition replace_plan_unsafe (pkg v1 v2 data : string) : list mutation :=
  [Dispose v1; CopyIn v2 data; IndexAdd pkg v2].


(** The states the repository goes through while a plan runs: the state
    it starts in and the state after each mutation, in order. *)
Fixpoint states (c : Config) (confirm : mutation -> bool)
    (fails : RepoState -> mutation -> bool)
    (plan : list mutation) (r : RepoState) : list RepoState :=
  r :: match plan with
       | [] => []
       | m :: rest =>
           states c confirm fails rest (fst (step c confirm fails r m))
       end.

(** * Concrete surroundings, to run the program *)

Module Sample.

Definition home_conf : string := "/home/user/.repo.conf".

(** A file system holding one configuration file that names a
    repository and one that does not decode. *)
Definition FileExists (p : string) : bool :=
  bool_decide (p = home_conf) || bool_decide (p = "/etc/broken.conf").

Definition DecodeFile (p : string) : error + IniConfig :=
  if decide (p = home_conf)
  then inr (mkIniConfig "/srv/repo/core.db.tar.gz" ["-s"] ["-v"])
  else inl "toml: cannot decode".

(** Action functions that print a line and succeed. *)
Definition ok (what : string) : Action := fun _ =>
  emit (Fprintln Stdout [VString what]);; mret None.


Definition cmdline (repo : option string) (args : list string)
  : CommandLine :=
  mkCommandLine None repo false false false false false false false
                false false false false args.

Definition run_main (update : Action) (cl : CommandLine)
  : IO termination :=
  main home_conf FileExists DecodeFile GoPath.Dir GoPath.Base
       (ok "list") update (ok "add") (ok "remove") (ok "status")
       (ok "filter") cl.

Definition read_config (cl : CommandLine)
  : IO (option Config * option Action * option error) :=
  ReadConfig home_conf FileExists DecodeFile GoPath.Dir GoPath.Base
       (ok "list") (ok "update") (ok "add") (ok "remove") (ok "status")
       (ok "filter") cl.

(** Two configuration files, for [readIniInto] applied twice. *)
Definition DecodeTwo (p : string) : error + IniConfig :=
  if decide (p = "first.conf")
  then inr (mkIniConfig "" ["-s"] [])
  else if decide (p = "second.conf")
  then inr (mkIniConfig "/srv/second.db.tar.gz" [] ["-v"])
  else inl "toml: cannot decode".

Definition flags (config : option string) (help all : bool)
    (args : list string) : CommandLine :=
  mkCommandLine config None false false help false true false false
                false all false true args.

(** Nothing fails; only copying fails; only adding to the index fails. *)
Definition never_fails (r : RepoState) (m : mutation) : bool := false.



(** A configuration with the two flags of the executor. *)
Definition conf (interactive backup : bool) : Config :=
  mkConfig "" "" "" "" [] [] false false false "" false false false false
           interactive backup [].

Definition old_file : string := "pkg-1.0-1-any.pkg.tar.xz".
Definition new_file : string := "pkg-1.1-1-any.pkg.tar.xz".

(** A repository with one package, in its index, and no backup
    directory yet. *)
Definition repo0 : RepoState :=
  mkRepoState {[ old_file := "old contents" ]} None {[ "pkg" := old_file ]}.

End Sample.

(** * Statements of the specification about the front end *)

(** The operations the specification lists as the user-facing surface. *)
Definition spec_operations : list string :=
  ["list"; "status"; "filter"; "add"; "remove"; "update"; "reset"].

(** The names the action table of the source accepts. *)
Definition action_names : list string :=
  ["list"; "ls"; "update"; "add"; "remove"; "rm"; "status"; "filter";
   "help"; "usage"].

(** The invariant of a constructed configuration: [path] and [database]
    are the directory and the base name of a non-empty [Repository]. *)
Definition config_invariant (Dir Base : string -> string) (c : Config)
  : Prop :=
  path c = Dir (Repository c) /\
  database c = Base (Repository c) /\
  Repository c <> "".

(** * Properties of the front end *)

(** ** Traces *)

Lemma trace_bind {A B} (m : IO A) (k : A -> IO B) :
  trace (m ≫= k) = trace m ++ trace (k (result m)).
Proof.
  destruct m as [tr a]. unfold mbind, io_mbind, io_bind, trace, result.
  simpl. destruct (k a). reflexivity.
Qed.

Lemma result_bind {A B} (m : IO A) (k : A -> IO B) :
  result (m ≫= k) = result (k (result m)).
Proof.
  destruct m as [tr a]. unfold mbind, io_mbind, io_bind, trace, result.
  simpl. destruct (k a). reflexivity.
Qed.

Lemma io_eta {A} (m : IO A) : m = (trace m, result m).
Proof. destruct m; reflexivity. Qed.

Lemma trace_ret {A} (a : A) : trace (mret a : IO A) = [].
Proof. reflexivity. Qed.

Lemma result_ret {A} (a : A) : result (mret a : IO A) = a.
Proof. reflexivity. Qed.

Lemma trace_emit e : trace (emit e) = [e].
Proof. reflexivity. Qed.

Ltac io_simpl :=
  repeat first
    [ rewrite trace_bind | rewrite result_bind | rewrite trace_ret
    | rewrite result_ret | rewrite trace_emit ].

Lemma all_on_app w tr1 tr2 :
  all_on w tr1 -> all_on w tr2 -> all_on w (tr1 ++ tr2).
Proof. unfold all_on. intros. apply Forall_app; auto. Qed.

Lemma primary_output_all_stderr tr :
  all_on Stderr tr -> primary_output tr = [].
Proof.
  unfold all_on, primary_output. induction 1 as [|e tr He _ IH]; [done|].
  rewrite filter_cons. rewrite decide_False; [exact IH|]. congruence.
Qed.

(** ** [inform] *)

Lemma inform_cases c v :
  inform c v =
    if Quiet c then ([], tt)
    else match v with
         | VError e => ([Fprintf Stderr "warning: %s\n" [VError e]], tt)
         | VString s => ([Fprintln Stderr [VString s]], tt)
         end.
Proof. unfold inform. destruct (Quiet c), v; reflexivity. Qed.

(** C8: with the quiet flag set, [inform] produces no output at all, on
    either stream, whatever value or error it is given; and whenever
    [inform] prints anything the quiet flag is unset. *)
Theorem inform_quiet_silent (c : Config) (v : value) :
  (Quiet c = true -> inform c v = ([], tt)) /\
  (trace (inform c v) <> [] -> Quiet c = false) /\
  (Quiet c = false -> exists e, trace (inform c v) = [e]).
Proof.
  rewrite inform_cases. destruct (Quiet c); repeat split; try done.
  intros _. destruct v; eauto.
Qed.

Lemma inform_quiet_silent_witness :
  let c := mkConfig "" "" "" "" [] [] true false false "" false false
                    false false false false [] in
  Quiet c = true /\
  inform c (VError "bad file name") = ([], tt) /\
  inform c (VString "note") = ([], tt).
Proof.
  intros c. split; [reflexivity|]. split.
  - apply (proj1 (inform_quiet_silent c (VError "bad file name"))).
    reflexivity.
  - apply (proj1 (inform_quiet_silent c (VString "note"))). reflexivity.
Defined.

(** Membership in a list written out. *)
Ltac in_list :=
  repeat (apply elem_of_cons; first [left; reflexivity | right]).

(** Run the console monad. *)
Ltac io_red :=
  lazy beta iota zeta delta
    [mbind mret io_mbind io_mret io_bind io_ret emit trace result fst snd
     app] in *.

(** Read a field through the assignments made to a configuration. *)
Ltac config_red :=
  cbn [ConfigFile Repository database path AddParameters RemoveParameters
       Args set_Repository set_database set_path set_AddParameters
       set_RemoveParameters set_Args set_allListOptions parsedConfig].

(** The name of the configuration file, as the flags give it. *)
Ltac config_file_red :=
  repeat match goal with
  | |- context [ConfigFile (parsedConfig ?d ?c)] =>
      change (ConfigFile (parsedConfig d c)) with (default d (opt_config c))
        in *
  | H : context [ConfigFile (parsedConfig ?d ?c)] |- _ =>
      change (ConfigFile (parsedConfig d c)) with (default d (opt_config c))
        in *
  end.

(** Unfold [ReadConfig] and split on everything it branches on. *)
Ltac read_config_cases :=
  unfold ReadConfig, readIniInto; io_red; config_file_red;
  repeat (case_match; io_red; simplify_eq).

(** ** The action table *)

Section Table.

Variables List Update Add Remove Status Filter : Action.

Abbreviation acts := (actions List Update Add Remove Status Filter).

Lemma actions_lookup (a : string) :
  acts !! a =
    if decide (a = "list") then Some List
    else if decide (a = "ls") then Some List
    else if decide (a = "update") then Some Update
    else if decide (a = "add") then Some Add
    else if decide (a = "remove") then Some Remove
    else if decide (a = "rm") then Some Remove
    else if decide (a = "status") then Some Status
    else if decide (a = "filter") then Some Filter
    else if decide (a = "help") then Some Usage
    else if decide (a = "usage") then Some Usage
    else None.
Proof.
  unfold actions.
  repeat (case_decide; [ subst a; vm_compute; reflexivity | ]).
  simpl. repeat (rewrite lookup_insert_ne by congruence).
  apply lookup_empty.
Qed.

Lemma actions_dom (a : string) : is_Some (acts !! a) <-> a ∈ action_names.
Proof.
  rewrite actions_lookup. unfold action_names.
  repeat (case_decide; [ subst a; split; [intros _; set_solver | eauto] | ]).
  split; [intros [? ?]; discriminate|].
  intros Hin.
  repeat (apply elem_of_cons in Hin as [->|Hin]; [done|]).
  by apply elem_of_nil in Hin.
Qed.

End Table.

(** ** [ReadConfig] and [main] *)

Section FrontEnd.

Variable defaultConfigPath : string.
Variable FileExists : string -> bool.
Variable DecodeFile : string -> error + IniConfig.
Variables Dir Base : string -> string.
Variables List Update Add Remove Status Filter : Action.

Abbreviation readIni := (readIniInto DecodeFile).
Abbreviation parsed := (parsedConfig defaultConfigPath).
Abbreviation acts := (actions List Update Add Remove Status Filter).
Abbreviation readConfig :=
  (ReadConfig defaultConfigPath FileExists DecodeFile Dir Base
              List Update Add Remove Status Filter).
Abbreviation run_main :=
  (main defaultConfigPath FileExists DecodeFile Dir Base
        List Update Add Remove Status Filter).
Abbreviation usable := (config_usable defaultConfigPath FileExists DecodeFile).

Lemma ReadConfig_trace_stderr (cl : CommandLine) :
  all_on Stderr (trace (readConfig cl)).
Proof.
  unfold all_on. read_config_cases; repeat constructor.
Qed.


(** A recognized first argument is dispatched to the action the table
    gives for it, with the remaining arguments in [Args]. *)
Lemma ReadConfig_dispatch (cl : CommandLine) (arg0 : string)
    (rest : list string) (a : Action) :
  opt_help cl = false -> usable cl ->
  positional cl = arg0 :: rest -> acts !! arg0 = Some a ->
  exists conf,
    result (readConfig cl) = (Some conf, Some a, None) /\ Args conf = rest.
Proof.
  intros Hh Hu Hp Ha. unfold config_usable in Hu. unfold result.
  destruct Hu as [Hu|[ini Hu]]; revert Hu; read_config_cases; intros;
    simplify_eq; eexists; split; reflexivity.
Qed.


(** When [ReadConfig] fails, [main] prints the error and the usage on
    standard output and exits with status 1. *)
Lemma main_on_error (cl : CommandLine) conf cmd (err : error) :
  result (readConfig cl) = (conf, cmd, Some err) ->
  run_main cl =
    (trace (readConfig cl) ++
       [Fprintln Stdout [VString "Error:"; VError err]; Fprintln Stdout []] ++
       trace (Usage None),
     Exit 1).
Proof.
  intros Hr. unfold main. destruct (readConfig cl) as [tr r].
  unfold result in Hr. simpl in Hr. subst r.
  destruct cmd; reflexivity.
Qed.

(** When [ReadConfig] succeeds, [main] runs the action on the
    configuration. *)
Lemma main_on_success (cl : CommandLine) conf (cmd : Action) :
  result (readConfig cl) = (conf, Some cmd, None) ->
  run_main cl = (trace (readConfig cl) ++ trace (cmd conf), Returned).
Proof.
  intros Hr. unfold main. destruct (readConfig cl) as [tr r].
  unfold result in Hr. simpl in Hr. subst r.
  unfold mbind, io_mbind, io_bind, trace. simpl.
  destruct (cmd conf) as [tr' e]. simpl. by rewrite app_nil_r.
Qed.

End FrontEnd.

(** ** Independence from the action functions *)

Section Independence.

Variable defaultConfigPath : string.
Variable FileExists : string -> bool.
Variable DecodeFile : string -> error + IniConfig.
Variables Dir Base : string -> string.
Variables List Update Add Remove Status Filter : Action.
Variables List' Update' Add' Remove' Status' Filter' : Action.

Abbreviation readConfig1 :=
  (ReadConfig defaultConfigPath FileExists DecodeFile Dir Base
              List Update Add Remove Status Filter).
Abbreviation readConfig2 :=
  (ReadConfig defaultConfigPath FileExists DecodeFile Dir Base
              List' Update' Add' Remove' Status' Filter').



End Independence.

(** ** The statements about the front end *)

Section FrontEndClaims.

Variable defaultConfigPath : string.
Variable FileExists : string -> bool.
Variable DecodeFile : string -> error + IniConfig.
Variables Dir Base : string -> string.
Variables List Update Add Remove Status Filter : Action.

Abbreviation parsed := (parsedConfig defaultConfigPath).
Abbreviation acts := (actions List Update Add Remove Status Filter).
Abbreviation readConfig :=
  (ReadConfig defaultConfigPath FileExists DecodeFile Dir Base
              List Update Add Remove Status Filter).
Abbreviation run_main :=
  (main defaultConfigPath FileExists DecodeFile Dir Base
        List Update Add Remove Status Filter).
Abbreviation usable := (config_usable defaultConfigPath FileExists DecodeFile).

(** C7: the warnings of the front end go to standard error and nothing of
    them reaches the primary output: every call [inform] makes and every
    call [ReadConfig] makes writes to [os.Stderr]; the warning for a
    missing configuration file is among the latter. *)
Theorem warnings_on_stderr (cl : CommandLine) (c : Config) (v : value) :
  all_on Stderr (trace (inform c v)) /\
  primary_output (trace (inform c v)) = [] /\
  all_on Stderr (trace (readConfig cl)) /\
  primary_output (trace (readConfig cl)) = [] /\
  (opt_help cl = false ->
   FileExists (ConfigFile (parsed cl)) = false ->
   Fprintf Stderr "Warning: missing config file %q.\n"
           [VString (ConfigFile (parsed cl))] ∈ trace (readConfig cl)) /\
  (Quiet c = false ->
   forall e, trace (inform c (VError e))
             = [Fprintf Stderr "warning: %s\n" [VError e]]).
Proof.
  assert (Hi : all_on Stderr (trace (inform c v))).
  { rewrite inform_cases. destruct (Quiet c), v; repeat constructor. }
  pose proof (ReadConfig_trace_stderr defaultConfigPath FileExists DecodeFile
                Dir Base List Update Add Remove Status Filter cl) as Hr.
  repeat split; auto using primary_output_all_stderr.
  - intros Hh Hf. unfold trace. revert Hh Hf.
    read_config_cases; intros; try congruence; apply elem_of_cons; by left.
  - intros Hq e. rewrite inform_cases, Hq. reflexivity.
Qed.

(** C9: a repository given with [--repo] is not overwritten by the
    configuration file.  [readIniInto] takes the repository of the file
    only when [Repository] is still empty, and takes [AddParameters] and
    [RemoveParameters] from the file in every case; so the configuration
    [ReadConfig] returns has the repository of the command line. *)
Theorem repo_flag_not_overwritten :
  (forall file conf ini,
     DecodeFile file = inr ini ->
     let conf' := fst (readIniInto DecodeFile file conf) in
     snd (readIniInto DecodeFile file conf) = None /\
     Repository conf' =
       (if decide (Repository conf = "") then Repo ini else Repository conf) /\
     AddParameters conf' = AddParam ini /\
     RemoveParameters conf' = RmParam ini) /\
  (forall cl r conf cmd err,
     opt_repo cl = Some r -> r <> "" ->
     result (readConfig cl) = (Some conf, cmd, err) ->
     Repository conf = r) /\
  (forall cl ini conf cmd err,
     FileExists (ConfigFile (parsed cl)) = true ->
     DecodeFile (ConfigFile (parsed cl)) = inr ini ->
     result (readConfig cl) = (Some conf, cmd, err) ->
     AddParameters conf = AddParam ini /\
     RemoveParameters conf = RmParam ini).
Proof.
  split; [|split].
  - intros file conf ini Hd. unfold readIniInto. rewrite Hd. simpl.
    case_decide; auto.
  - intros cl r conf cmd err Hrepo Hne. unfold result.
    unfold ReadConfig, readIniInto, parsedConfig. rewrite Hrepo.
    read_config_cases; intros; simplify_eq; config_red; done.
  - intros cl ini conf cmd err Hf Hd. unfold result. revert Hf Hd.
    read_config_cases; intros; simplify_eq; config_red; auto.
Qed.

(** C10, as the code has it: [NewConfig] derives [path] and [database]
    from the repository it is given, whatever that is, and satisfies the
    invariant when that repository is not empty; a configuration returned
    by [ReadConfig] satisfies the invariant, and its repository is the
    default one when neither the command line nor the configuration file
    names a repository. *)
Theorem config_paths_derived :
  (forall repo,
     let c := NewConfig Dir Base repo in
     Repository c = repo /\
     path c = Dir (Repository c) /\
     database c = Base (Repository c)) /\
  (forall repo, repo <> "" -> config_invariant Dir Base (NewConfig Dir Base repo)) /\
  (forall cl conf cmd err,
     result (readConfig cl) = (Some conf, cmd, err) ->
     config_invariant Dir Base conf) /\
  (forall cl conf cmd err,
     result (readConfig cl) = (Some conf, cmd, err) ->
     default "" (opt_repo cl) = "" ->
     (FileExists (ConfigFile (parsed cl)) = false \/
      exists ini, DecodeFile (ConfigFile (parsed cl)) = inr ini /\
                  Repo ini = "") ->
     Repository conf = defaultRepo).
Proof.
  split; [|split; [|split]].
  - intros repo. simpl. auto.
  - intros repo Hne. unfold config_invariant. simpl. auto.
  - intros cl conf cmd err. unfold result, config_invariant.
    read_config_cases; intros; simplify_eq; config_red; repeat split; auto;
      discriminate.
  - intros cl conf cmd err Hr He Hc. unfold result in Hr.
    revert Hr He Hc.
    read_config_cases; intros ? ? [?|(ini & ? & ?)]; simplify_eq; config_red;
      try reflexivity; try congruence.
Qed.

End FrontEndClaims.

(** ** Dispatch and exit status *)

Section Dispatch.

Variable defaultConfigPath : string.
Variable FileExists : string -> bool.
Variable DecodeFile : string -> error + IniConfig.
Variables Dir Base : string -> string.
Variables List Update Add Remove Status Filter : Action.

Abbreviation acts := (actions List Update Add Remove Status Filter).
Abbreviation readConfig :=
  (ReadConfig defaultConfigPath FileExists DecodeFile Dir Base
              List Update Add Remove Status Filter).
Abbreviation run_main :=
  (main defaultConfigPath FileExists DecodeFile Dir Base
        List Update Add Remove Status Filter).
Abbreviation usable := (config_usable defaultConfigPath FileExists DecodeFile).

(** C2, as the code has it: each of [list], [status], [filter], [add],
    [remove] and [update], given as the first positional argument, is
    dispatched to its action: [ReadConfig] returns that action with the
    remaining arguments and [main] runs it.  The table also accepts [ls],
    [rm], [help] and [usage]; apart from [reset], about which nothing is
    said here, a name is accepted exactly when it is one of these ten. *)
Theorem operations_dispatch (cl : CommandLine) (op : string)
    (rest : list string) (a : Action) :
  opt_help cl = false ->
  usable cl ->
  positional cl = op :: rest ->
  (op, a) ∈ [("list", List); ("status", Status); ("filter", Filter);
             ("add", Add); ("remove", Remove); ("update", Update)] ->
  (exists conf,
     result (readConfig cl) = (Some conf, Some a, None) /\
     Args conf = rest /\
     trace (run_main cl) = trace (readConfig cl) ++ trace (a (Some conf))) /\
  acts !! "ls" = Some List /\
  acts !! "rm" = Some Remove /\
  acts !! "help" = Some Usage /\
  acts !! "usage" = Some Usage /\
  (forall other, other <> "reset" ->
     (is_Some (acts !! other) <-> other ∈ action_names)).
Proof.
  intros Hh Hu Hp Hop.
  assert (Ha : acts !! op = Some a).
  { repeat (apply elem_of_cons in Hop as [Hop|Hop];
            [ injection Hop as -> ->; reflexivity | ]).
    by apply elem_of_nil in Hop. }
  split.
  - destruct (ReadConfig_dispatch defaultConfigPath FileExists DecodeFile
                Dir Base List Update Add Remove Status Filter
                cl op rest a Hh Hu Hp Ha) as (conf & Hr & Hargs).
    exists conf. repeat split; auto.
    by rewrite (main_on_success _ _ _ _ _ _ _ _ _ _ _ _ _ _ Hr).
  - repeat (split; [reflexivity|]). intros other _. apply actions_dom.
Qed.


End Dispatch.

(** ** The front end on concrete command lines *)

Lemma warnings_on_stderr_witness :
  let cl := mkCommandLine (Some "/tmp/none.conf") None false false false
              false false false false false false false false ["list"] in
  Sample.FileExists "/tmp/none.conf" = false /\
  Fprintf Stderr "Warning: missing config file %q.\n"
          [VString "/tmp/none.conf"] ∈ trace (Sample.read_config cl) /\
  primary_output (trace (Sample.read_config cl)) = [].
Proof.
  intros cl.
  pose proof (warnings_on_stderr Sample.home_conf Sample.FileExists
                Sample.DecodeFile GoPath.Dir GoPath.Base
                (Sample.ok "list") (Sample.ok "update") (Sample.ok "add")
                (Sample.ok "remove") (Sample.ok "status")
                (Sample.ok "filter") cl zeroConfig (VString ""))
    as (_ & _ & _ & Hout & Hwarn & _).
  split; [reflexivity|]. split; [|exact Hout].
  apply Hwarn; reflexivity.
Defined.

Lemma repo_flag_not_overwritten_witness :
  let cl := Sample.cmdline (Some "/a/b.db") ["list"] in
  Sample.DecodeFile Sample.home_conf
    = inr (mkIniConfig "/srv/repo/core.db.tar.gz" ["-s"] ["-v"]) /\
  exists conf,
    fst (fst (result (Sample.read_config cl))) = Some conf /\
    Repository conf = "/a/b.db" /\
    AddParameters conf = ["-s"].
Proof.
  intros cl. split; [reflexivity|].
  eexists. split; [reflexivity|].
  pose proof (repo_flag_not_overwritten Sample.home_conf Sample.FileExists
                Sample.DecodeFile GoPath.Dir GoPath.Base
                (Sample.ok "list") (Sample.ok "update") (Sample.ok "add")
                (Sample.ok "remove") (Sample.ok "status")
                (Sample.ok "filter")) as (_ & Hrepo & Hparams).
  split.
  - eapply (Hrepo cl "/a/b.db"); [reflexivity|discriminate|reflexivity].
  - refine (proj1 (Hparams cl (mkIniConfig _ ["-s"] _) _ _ _ _ _ _));
      reflexivity.
Defined.

Lemma config_paths_derived_witness :
  let cl := mkCommandLine (Some "/tmp/none.conf") None false false false
              false false false false false false false false ["list"] in
  exists conf,
    fst (fst (result (Sample.read_config cl))) = Some conf /\
    config_invariant GoPath.Dir GoPath.Base conf /\
    Repository conf = "/srv/abs/atlas.db.tar.gz" /\
    path conf = "/srv/abs" /\
    database conf = "atlas.db.tar.gz".
Proof.
  intros cl. eexists. split; [reflexivity|].
  pose proof (config_paths_derived Sample.home_conf Sample.FileExists
                Sample.DecodeFile GoPath.Dir GoPath.Base
                (Sample.ok "list") (Sample.ok "update") (Sample.ok "add")
                (Sample.ok "remove") (Sample.ok "status")
                (Sample.ok "filter")) as (_ & _ & Hinv & Hdef).
  split; [eapply (Hinv cl); reflexivity|].
  split; [|split; reflexivity].
  eapply (Hdef cl); [reflexivity|reflexivity|left; reflexivity].
Defined.

Lemma operations_dispatch_witness :
  let cl := Sample.cmdline None ["update"; "-x"] in
  exists conf,
    result (Sample.read_config cl)
      = (Some conf, Some (Sample.ok "update"), None) /\
    Args conf = ["-x"].
Proof.
  intros cl.
  destruct (operations_dispatch Sample.home_conf Sample.FileExists
              Sample.DecodeFile GoPath.Dir GoPath.Base
              (Sample.ok "list") (Sample.ok "update") (Sample.ok "add")
              (Sample.ok "remove") (Sample.ok "status")
              (Sample.ok "filter") cl "update" ["-x"] (Sample.ok "update"))
    as [(conf & Hr & Hargs & _) _].
  - reflexivity.
  - right. eexists. reflexivity.
  - reflexivity.
  - in_list.
  - exists conf. split; assumption.
Defined.



(** C2, as stated, fails on the code: [reset] is one of the listed
    operations and is refused as unrecognized, and [ls] is accepted
    without being one of them. *)
Lemma operations_counterexample :
  "reset" ∈ spec_operations /\
  result (Sample.read_config (Sample.cmdline None ["reset"]))
    = (None, Some Usage, Some "unrecognized action reset") /\
  ("ls" ∉ spec_operations) /\
  snd (fst (result (Sample.read_config (Sample.cmdline None ["ls"]))))
    = Some (Sample.ok "list").
Proof.
  split; [|split; [reflexivity|split; [|reflexivity]]].
  - unfold spec_operations. in_list.
  - intros H. repeat (apply elem_of_cons in H as [H|H]; [discriminate|]).
    by apply elem_of_nil in H.
Qed.

(** C10, as stated, fails on the code: [NewConfig] of the empty string
    leaves [Repository] empty. *)
Lemma NewConfig_empty_counterexample :
  Repository (NewConfig GoPath.Dir GoPath.Base "") = "" /\
  ~ config_invariant GoPath.Dir GoPath.Base
      (NewConfig GoPath.Dir GoPath.Base "").
Proof.
  split; [reflexivity|]. intros (_ & _ & H). by apply H.
Qed.

(** * Properties of the repository engine *)

(** ** Strings *)

Lemma app_cons_string (c : ascii) (a b : string) :
  String c a +:+ b = String c (a +:+ b).
Proof. reflexivity. Qed.

Lemma app_empty_string (b : string) : "" +:+ b = b.
Proof. reflexivity. Qed.

Lemma app_assoc_string (a b c : string) :
  (a +:+ b) +:+ c = a +:+ (b +:+ c).
Proof.
  induction a as [|x a IH]; [reflexivity|].
  rewrite !app_cons_string. by rewrite IH.
Qed.

Lemma split_on_not_nil (sep : ascii) (s : string) : split_on sep s <> [].
Proof.
  destruct s as [|c s]; simpl; [done|].
  destruct (Ascii.eqb c sep); [done|]. by destruct (split_on sep s).
Qed.

Lemma join_with_cons (sep : ascii) (w : string) (ws : list string) :
  ws <> [] ->
  join_with sep (w :: ws) = w +:+ String sep (join_with sep ws).
Proof. destruct ws; [done|reflexivity]. Qed.

Lemma join_with_first (sep c : ascii) (w : string) (ws : list string) :
  join_with sep (String c w :: ws) = String c (join_with sep (w :: ws)).
Proof. destruct ws; reflexivity. Qed.

(** Splitting and joining are inverse on the side of the string. *)
Lemma join_split (sep : ascii) (s : string) :
  join_with sep (split_on sep s) = s.
Proof.
  induction s as [|c s IH]; [reflexivity|]. simpl.
  destruct (Ascii.eqb c sep) eqn:E.
  - apply Ascii.eqb_eq in E as ->.
    rewrite join_with_cons by apply split_on_not_nil.
    rewrite IH. reflexivity.
  - pose proof (split_on_not_nil sep s) as Hn.
    destruct (split_on sep s) as [|w ws]; [done|].
    rewrite join_with_first. by rewrite IH.
Qed.

Lemma join_with_app (sep : ascii) (l1 l2 : list string) :
  l1 <> [] -> l2 <> [] ->
  join_with sep (l1 ++ l2)
  = join_with sep l1 +:+ String sep (join_with sep l2).
Proof.
  intros H1 H2. induction l1 as [|w l1 IH]; [done|].
  destruct l1 as [|w' l1].
  - simpl. by rewrite join_with_cons.
  - change ((w :: w' :: l1) ++ l2) with (w :: ((w' :: l1) ++ l2)).
    rewrite join_with_cons by done.
    rewrite IH by done.
    rewrite (join_with_cons sep w (w' :: l1)) by done.
    rewrite app_assoc_string. reflexivity.
Qed.

Lemma cut_at_spec (c : ascii) (s before after : string) :
  cut_at c s = Some (before, after) -> s = before +:+ String c after.
Proof.
  revert before. induction s as [|d s IH]; intros before; simpl; [done|].
  destruct (Ascii.eqb d c) eqn:E.
  - apply Ascii.eqb_eq in E as ->. intros [= <- <-]. reflexivity.
  - destruct (cut_at c s) as [[b a]|]; [|done].
    intros [= <- <-]. rewrite app_cons_string. f_equal. by apply IH.
Qed.

(** ** Package identity parser *)

(** C4: for every file name [F] that the parser accepts, that is, every
    well-formed package file name, serializing the identity parsed from
    [F] gives [F] back, character for character. *)
Theorem serialize_parse (F : string) (p : PackageIdentity) :
  parse F = Some p -> serialize p = F.
Proof.
  unfold parse, serialize, extension.
  destruct (rev (split_on "-" F)) as [|last [|rel [|ver [|n ns]]]] eqn:Hrev;
    try done.
  destruct (cut_at "." last) as [[arch ext]|] eqn:Hcut; [|done].
  intros [= <-]. simpl. rewrite Hrev, Hcut.
  apply cut_at_spec in Hcut.
  transitivity (join_with "-" (split_on "-" F)); [|apply join_split].
  rewrite <- (rev_involutive (split_on "-" F)), Hrev.
  change (rev (last :: rel :: ver :: n :: ns))
    with (((rev (n :: ns) ++ [ver]) ++ [rel]) ++ [last]).
  rewrite <- !(assoc_L (++)). simpl ([ver] ++ _).
  change (rev ns ++ [n]) with (rev (n :: ns)).
  assert (Hfront : rev (n :: ns) <> []) by (simpl; by destruct (rev ns)).
  revert Hfront. generalize (rev (n :: ns)). intros front Hfront.
  rewrite (join_with_app "-" front [ver; rel; last]) by done.
  rewrite Hcut. reflexivity.
Qed.

Lemma split_on_no_sep (sep : ascii) (y : string) :
  has_char sep y = false -> split_on sep y = [y].
Proof.
  induction y as [|c y IH]; simpl; [done|].
  intros [Hc Hy]%orb_false_iff. rewrite Hc, (IH Hy). reflexivity.
Qed.

Lemma split_on_app_last (sep : ascii) (x y : string) :
  has_char sep y = false ->
  split_on sep (x +:+ String sep y) = split_on sep x ++ [y].
Proof.
  intros Hy. induction x as [|c x IH].
  - rewrite app_empty_string. simpl. rewrite Ascii.eqb_refl.
    by rewrite split_on_no_sep.
  - rewrite app_cons_string. simpl. rewrite IH.
    destruct (Ascii.eqb c sep); [reflexivity|].
    pose proof (split_on_not_nil sep x).
    by destruct (split_on sep x).
Qed.

Lemma has_char_app (c : ascii) (a b : string) :
  has_char c (a +:+ b) = has_char c a || has_char c b.
Proof.
  induction a as [|d a IH]; [reflexivity|].
  rewrite app_cons_string. simpl. rewrite IH. by rewrite orb_assoc.
Qed.

Lemma cut_at_first (c : ascii) (a b : string) :
  has_char c a = false -> cut_at c (a +:+ String c b) = Some (a, b).
Proof.
  induction a as [|d a IH]; intros Ha.
  - rewrite app_empty_string. simpl. by rewrite Ascii.eqb_refl.
  - simpl in Ha. apply orb_false_iff in Ha as [Hd Ha].
    rewrite app_cons_string. simpl. rewrite Hd, (IH Ha). reflexivity.
Qed.

(** Every file name in the canonical format is accepted, and parsing it
    recovers the fields it was built from. *)
Lemma parse_canonical (n v r a e : string) :
  has_char "-" v = false -> has_char "-" r = false ->
  has_char "-" a = false -> has_char "-" e = false ->
  has_char "." a = false ->
  let F := n +:+ "-" +:+ v +:+ "-" +:+ r +:+ "-" +:+ a +:+ "." +:+ e in
  parse F = Some (mkPackageIdentity n v r a F).
Proof.
  intros Hv Hr Ha He Hdot F. unfold parse.
  assert (HF : split_on "-" F = split_on "-" n ++ [v; r; a +:+ "." +:+ e]).
  { assert (F = ((n +:+ String "-" v) +:+ String "-" r)
                  +:+ String "-" (a +:+ String "." e)) as ->.
    { unfold F. rewrite !app_assoc_string. reflexivity. }
    rewrite split_on_app_last.
    2:{ rewrite has_char_app, Ha. simpl. exact He. }
    rewrite (split_on_app_last "-" (n +:+ String "-" v) r Hr).
    rewrite (split_on_app_last "-" n v Hv).
    rewrite <- !(assoc_L (++)). reflexivity. }
  rewrite HF, rev_app_distr. simpl.
  pose proof (split_on_not_nil "-" n) as Hn.
  destruct (rev (split_on "-" n)) as [|n0 ns] eqn:Hrev.
  { apply (f_equal (@rev string)) in Hrev.
    rewrite rev_involutive in Hrev. done. }
  change (a +:+ "." +:+ e) with (a +:+ String "." e).
  rewrite (cut_at_first "." a e Hdot).
  do 2 f_equal. change (rev ns ++ [n0]) with (rev (n0 :: ns)).
  rewrite <- Hrev, rev_involutive. apply join_split.
Qed.

Lemma serialize_parse_witness :
  let F := "pacman-mirrorlist-3.5.3-1-i686.pkg.tar.xz" in
  parse F = Some (mkPackageIdentity "pacman-mirrorlist" "3.5.3" "1" "i686" F)
  /\ serialize (mkPackageIdentity "pacman-mirrorlist" "3.5.3" "1" "i686" F)
     = F.
Proof.
  intros F. split; [reflexivity|].
  apply (serialize_parse F). reflexivity.
Defined.

(** ** Version comparator *)

Lemma then_cmp_opp (r1 r2 : comparison) :
  CompOpp (then_cmp r1 r2) = then_cmp (CompOpp r1) (CompOpp r2).
Proof. by destruct r1. Qed.

(** Transitivity of "less" through a sequence of two comparisons, from
    the facts about the first and the second comparison of the three
    pairs. *)
Lemma then_cmp_lt_trans (p q r p' q' r' : comparison) :
  (p = Lt -> q = Lt -> r = Lt) ->
  (p = Eq -> r = q) ->
  (q = Eq -> r = p) ->
  (p' = Lt -> q' = Lt -> r' = Lt) ->
  then_cmp p p' = Lt -> then_cmp q q' = Lt -> then_cmp r r' = Lt.
Proof.
  intros Ht Hl Hr Ht'. destruct p, q; simpl; intros H1 H2; try discriminate.
  - rewrite (Hl eq_refl). simpl. auto.
  - by rewrite (Hl eq_refl).
  - by rewrite (Hr eq_refl).
  - by rewrite (Ht eq_refl eq_refl).
Qed.

Lemma then_cmp_eq_l (p q r p' q' r' : comparison) :
  (p = Eq -> r = q) ->
  (p' = Eq -> r' = q') ->
  then_cmp p p' = Eq -> then_cmp r r' = then_cmp q q'.
Proof.
  intros Hl Hl'. destruct p; simpl; intros H; try discriminate.
  rewrite (Hl eq_refl), (Hl' H). reflexivity.
Qed.

(** From the first two laws, the third on the other side. *)
Lemma cmp_eq_r {A} (cmp : A -> A -> comparison) :
  (forall a b, cmp b a = CompOpp (cmp a b)) ->
  (forall a b c, cmp a b = Eq -> cmp a c = cmp b c) ->
  forall a b c, cmp b c = Eq -> cmp a c = cmp a b.
Proof.
  intros Hopp Heq a b c Hbc.
  assert (Hcb : cmp c b = Eq) by (rewrite Hopp, Hbc; reflexivity).
  rewrite (Hopp c a), (Hopp b a). f_equal. by apply Heq.
Qed.

(** Numbers. *)
Lemma N_compare_trans (a b c : N) :
  N.compare a b = Lt -> N.compare b c = Lt -> N.compare a c = Lt.
Proof. rewrite !N.compare_lt_iff. lia. Qed.

Lemma N_compare_eq_l (a b c : N) :
  N.compare a b = Eq -> N.compare a c = N.compare b c.
Proof. intros ->%N.compare_eq. reflexivity. Qed.

(** Characters and strings. *)
Lemma ascii_compare_opp (a b : ascii) :
  OrdersEx.Ascii_as_OT.compare b a
  = CompOpp (OrdersEx.Ascii_as_OT.compare a b).
Proof. apply N.compare_antisym. Qed.

Lemma ascii_compare_trans (a b c : ascii) :
  OrdersEx.Ascii_as_OT.compare a b = Lt ->
  OrdersEx.Ascii_as_OT.compare b c = Lt ->
  OrdersEx.Ascii_as_OT.compare a c = Lt.
Proof. apply N_compare_trans. Qed.

Lemma ascii_compare_eq_l (a b c : ascii) :
  OrdersEx.Ascii_as_OT.compare a b = Eq ->
  OrdersEx.Ascii_as_OT.compare a c = OrdersEx.Ascii_as_OT.compare b c.
Proof. apply N_compare_eq_l. Qed.

Lemma string_compare_cons (a b : ascii) (s t : string) :
  OrdersEx.String_as_OT.compare (String a s) (String b t)
  = then_cmp (OrdersEx.Ascii_as_OT.compare a b)
             (OrdersEx.String_as_OT.compare s t).
Proof.
  simpl. by destruct (OrdersEx.Ascii_as_OT.compare a b).
Qed.

Lemma string_compare_opp (s t : string) :
  OrdersEx.String_as_OT.compare t s
  = CompOpp (OrdersEx.String_as_OT.compare s t).
Proof.
  revert t. induction s as [|a s IH]; intros [|b t]; try reflexivity.
  rewrite !string_compare_cons, then_cmp_opp.
  by rewrite ascii_compare_opp, IH.
Qed.

Lemma string_compare_eq_l (s t u : string) :
  OrdersEx.String_as_OT.compare s t = Eq ->
  OrdersEx.String_as_OT.compare s u = OrdersEx.String_as_OT.compare t u.
Proof.
  revert t u. induction s as [|a s IH]; intros [|b t] [|c u];
    try reflexivity; try discriminate.
  rewrite !string_compare_cons. apply then_cmp_eq_l.
  - apply ascii_compare_eq_l.
  - apply IH.
Qed.

Lemma string_compare_trans (s t u : string) :
  OrdersEx.String_as_OT.compare s t = Lt ->
  OrdersEx.String_as_OT.compare t u = Lt ->
  OrdersEx.String_as_OT.compare s u = Lt.
Proof.
  revert t u. induction s as [|a s IH]; intros [|b t] [|c u];
    try reflexivity; try discriminate.
  rewrite !string_compare_cons. apply then_cmp_lt_trans.
  - apply ascii_compare_trans.
  - apply ascii_compare_eq_l.
  - apply (cmp_eq_r _ ascii_compare_opp ascii_compare_eq_l).
  - apply IH.
Qed.

(** Runs. *)
Lemma cmp_run_opp (x y : run) : cmp_run y x = CompOpp (cmp_run x y).
Proof.
  destruct x, y; simpl; try reflexivity.
  - apply N.compare_antisym.
  - apply string_compare_opp.
Qed.

Lemma cmp_run_eq_l (x y z : run) :
  cmp_run x y = Eq -> cmp_run x z = cmp_run y z.
Proof.
  destruct x, y, z; simpl; try reflexivity; try discriminate.
  - apply N_compare_eq_l.
  - apply string_compare_eq_l.
Qed.

Lemma cmp_run_trans (x y z : run) :
  cmp_run x y = Lt -> cmp_run y z = Lt -> cmp_run x z = Lt.
Proof.
  destruct x, y, z; simpl; try reflexivity; try discriminate.
  - apply N_compare_trans.
  - apply string_compare_trans.
Qed.

(** Lists of runs. *)
Lemma cmp_runs_cons (x y : run) (xs ys : list run) :
  cmp_runs (x :: xs) (y :: ys) = then_cmp (cmp_run x y) (cmp_runs xs ys).
Proof. destruct x, y; simpl; by destruct (_ : comparison). Qed.

Lemma cmp_runs_opp (xs ys : list run) :
  cmp_runs ys xs = CompOpp (cmp_runs xs ys).
Proof.
  revert ys. induction xs as [|x xs IH]; intros [|y ys].
  - reflexivity.
  - by destruct y.
  - by destruct x.
  - rewrite !cmp_runs_cons, then_cmp_opp. by rewrite cmp_run_opp, IH.
Qed.

Lemma cmp_runs_eq_l (xs ys zs : list run) :
  cmp_runs xs ys = Eq -> cmp_runs xs zs = cmp_runs ys zs.
Proof.
  revert ys zs. induction xs as [|x xs IH]; intros [|y ys] zs.
  - reflexivity.
  - by destruct y.
  - by destruct x.
  - destruct zs as [|z zs].
    + rewrite cmp_runs_cons. intros H.
      assert (Hxy : cmp_run x y = Eq) by (by destruct (cmp_run x y)).
      by destruct x, y.
    + rewrite !cmp_runs_cons. apply then_cmp_eq_l.
      * apply cmp_run_eq_l.
      * apply IH.
Qed.

Lemma cmp_runs_trans (xs ys zs : list run) :
  cmp_runs xs ys = Lt -> cmp_runs ys zs = Lt -> cmp_runs xs zs = Lt.
Proof.
  revert ys zs. induction xs as [|x xs IH]; intros ys zs.
  - destruct ys as [|[?|?] ys], zs as [|[?|?] zs]; simpl; done.
  - destruct ys as [|y ys].
    + destruct x, zs as [|[?|?] zs]; simpl; done.
    + destruct zs as [|z zs].
      * rewrite cmp_runs_cons. intros H1 H2.
        assert (Hxy : cmp_run x y <> Gt) by (by destruct (cmp_run x y)).
        destruct x, y; simpl in *; done.
      * rewrite !cmp_runs_cons. apply then_cmp_lt_trans.
        -- apply cmp_run_trans.
        -- apply cmp_run_eq_l.
        -- apply (cmp_eq_r _ cmp_run_opp cmp_run_eq_l).
        -- apply IH.
Qed.

(** Versions. *)
Lemma vercmp_cmp_version (a b : string) :
  vercmp a b = cmp_version (split_version a) (split_version b).
Proof.
  unfold vercmp, cmp_version.
  destruct (split_version a) as [[ea va] ra].
  destruct (split_version b) as [[eb vb] rb].
  destruct (N.compare ea eb); [|reflexivity..].
  simpl. by destruct (cmp_runs va vb).
Qed.

Lemma cmp_version_opp (x y : N * list run * list run) :
  cmp_version y x = CompOpp (cmp_version x y).
Proof.
  destruct x as [[ea va] ra], y as [[eb vb] rb]. unfold cmp_version.
  rewrite !then_cmp_opp.
  by rewrite <- N.compare_antisym, <- !cmp_runs_opp.
Qed.

Lemma cmp_version_eq_l (x y z : N * list run * list run) :
  cmp_version x y = Eq -> cmp_version x z = cmp_version y z.
Proof.
  destruct x as [[ea va] ra], y as [[eb vb] rb], z as [[ec vc] rc].
  unfold cmp_version. apply then_cmp_eq_l.
  - apply N_compare_eq_l.
  - apply then_cmp_eq_l.
    + apply cmp_runs_eq_l.
    + apply cmp_runs_eq_l.
Qed.

Lemma cmp_version_trans (x y z : N * list run * list run) :
  cmp_version x y = Lt -> cmp_version y z = Lt -> cmp_version x z = Lt.
Proof.
  destruct x as [[ea va] ra], y as [[eb vb] rb], z as [[ec vc] rc].
  unfold cmp_version. apply then_cmp_lt_trans.
  - apply N_compare_trans.
  - apply N_compare_eq_l.
  - apply (cmp_eq_r N.compare).
    + intros. apply N.compare_antisym.
    + apply N_compare_eq_l.
  - apply then_cmp_lt_trans.
    + apply cmp_runs_trans.
    + apply cmp_runs_eq_l.
    + apply (cmp_eq_r _ cmp_runs_opp cmp_runs_eq_l).
    + apply cmp_runs_trans.
Qed.

(** C5, as the model has it: the comparator is a function of its two
    arguments (the same call gives the same answer), asymmetric and
    transitive in its strict part, and any two versions compare as less,
    equal or greater, with the opposite answer when the arguments are
    exchanged; versions that compare equal compare alike with every third
    one.  It puts "1.0a" strictly before "1.0" and "1.0.1" strictly after
    "1.0".  Two different strings may compare equal. *)
Theorem vercmp_strict_weak_order :
  (forall a b, vercmp b a = CompOpp (vercmp a b)) /\
  (forall a, vercmp a a = Eq) /\
  (forall a b, version_lt a b -> ~ version_lt b a) /\
  (forall a b c, version_lt a b -> version_lt b c -> version_lt a c) /\
  (forall a b, version_lt a b \/ vercmp a b = Eq \/ version_lt b a) /\
  (forall a b c, vercmp a b = Eq -> vercmp a c = vercmp b c) /\
  vercmp "1.0a" "1.0" = Lt /\
  vercmp "1.0.1" "1.0" = Gt.
Proof.
  assert (Hopp : forall a b, vercmp b a = CompOpp (vercmp a b)).
  { intros a b. rewrite !vercmp_cmp_version. apply cmp_version_opp. }
  unfold version_lt. repeat split.
  - exact Hopp.
  - intros a. specialize (Hopp a a). by destruct (vercmp a a).
  - intros a b Hab Hba. rewrite Hopp, Hab in Hba. discriminate.
  - intros a b c. rewrite !vercmp_cmp_version. apply cmp_version_trans.
  - intros a b. rewrite (Hopp a b). destruct (vercmp a b); auto.
  - intros a b c. rewrite !vercmp_cmp_version. apply cmp_version_eq_l.
Qed.

Lemma vercmp_strict_weak_order_witness :
  version_lt "1.0a" "1.0" /\ version_lt "1.0" "1.0.1" /\
  version_lt "1.0a" "1.0.1".
Proof.
  assert (H1 : version_lt "1.0a" "1.0") by reflexivity.
  assert (H2 : version_lt "1.0" "1.0.1") by reflexivity.
  split; [exact H1|]. split; [exact H2|].
  exact (proj1 (proj2 (proj2 (proj2 vercmp_strict_weak_order)))
           "1.0a" "1.0" "1.0.1" H1 H2).
Defined.

(** C5, as stated, fails on the model: a strict total order puts one of
    any two different version strings before the other, but "1.0" and
    "1.00" differ and compare equal (numeric runs compare by value). *)
Lemma vercmp_not_total_counterexample :
  "1.0" <> "1.00" /\
  vercmp "1.0" "1.00" = Eq /\
  ~ version_lt "1.0" "1.00" /\
  ~ version_lt "1.00" "1.0".
Proof. repeat split; try discriminate; reflexivity. Qed.

(** ** Plan executor *)

Lemma length_app_string (a b : string) :
  String.length (a +:+ b) = String.length a + String.length b.
Proof.
  induction a as [|c a IH]; [reflexivity|].
  rewrite app_cons_string. simpl. by rewrite IH.
Qed.

Lemma app_inj_suffix (a b suffix : string) :
  a +:+ suffix = b +:+ suffix -> a = b.
Proof.
  revert b. induction a as [|c a IH]; intros [|d b] H.
  - reflexivity.
  - exfalso. apply (f_equal String.length) in H.
    rewrite !length_app_string in H. simpl in H. lia.
  - exfalso. apply (f_equal String.length) in H.
    rewrite !length_app_string in H. simpl in H. lia.
  - rewrite !app_cons_string in H. injection H as -> H.
    f_equal. by apply IH.
Qed.

Lemma dispose_files (c : Config) (f : string) (r : RepoState) :
  files (dispose c f r) = delete f (files r).
Proof.
  unfold dispose. destruct (files r !! f) eqn:E.
  - by destruct (Backup c).
  - by rewrite delete_id.
Qed.

Lemma dispose_index (c : Config) (f : string) (r : RepoState) :
  index (dispose c f r) = index r.
Proof.
  unfold dispose. destruct (files r !! f); [|done]. by destruct (Backup c).
Qed.

Lemma dispose_all_cons (c : Config) (f : string) (obs : list string)
    (r : RepoState) :
  dispose_all c (f :: obs) r = dispose_all c obs (dispose c f r).
Proof. reflexivity. Qed.

Lemma dispose_all_index (c : Config) (obs : list string) (r : RepoState) :
  index (dispose_all c obs r) = index r.
Proof.
  revert r. induction obs as [|f obs IH]; intros r; [done|].
  by rewrite dispose_all_cons, IH, dispose_index.
Qed.

(** A file that is gone stays gone. *)
Lemma dispose_all_absent (c : Config) (obs : list string) (r : RepoState)
    (f : string) :
  files r !! f = None -> files (dispose_all c obs r) !! f = None.
Proof.
  revert r. induction obs as [|g obs IH]; intros r Hf; [done|].
  rewrite dispose_all_cons. apply IH. rewrite dispose_files.
  apply lookup_delete_None. by right.
Qed.

Lemma dispose_all_removes (c : Config) (obs : list string) (r : RepoState)
    (f : string) :
  f ∈ obs -> files (dispose_all c obs r) !! f = None.
Proof.
  revert r. induction obs as [|g obs IH]; intros r Hin.
  - by apply elem_of_nil in Hin.
  - rewrite dispose_all_cons. apply elem_of_cons in Hin as [->|Hin].
    + apply dispose_all_absent. rewrite dispose_files.
      apply lookup_delete_eq.
    + by apply IH.
Qed.

Lemma dispose_all_frame (c : Config) (obs : list string) (r : RepoState)
    (g : string) :
  g ∉ obs -> files (dispose_all c obs r) !! g = files r !! g.
Proof.
  revert r. induction obs as [|f obs IH]; intros r Hg; [done|].
  apply not_elem_of_cons in Hg as [Hne Hg].
  rewrite dispose_all_cons, IH by done.
  rewrite dispose_files. by apply lookup_delete_ne.
Qed.

Lemma dispose_all_no_backup (c : Config) (obs : list string)
    (r : RepoState) :
  Backup c = false -> backup_dir (dispose_all c obs r) = backup_dir r.
Proof.
  intros Hb. revert r. induction obs as [|f obs IH]; intros r; [done|].
  rewrite dispose_all_cons, IH. unfold dispose.
  destruct (files r !! f); [|done]. by rewrite Hb.
Qed.

(** What is in the backup under the name of a file that is no longer in
    the repository directory stays there. *)
Lemma dispose_all_keeps_backup (c : Config) (obs : list string)
    (r : RepoState) (f d : string) (b : gmap string string) :
  files r !! f = None ->
  backup_dir r = Some b -> b !! (f +:+ backup_suffix) = Some d ->
  exists b', backup_dir (dispose_all c obs r) = Some b' /\
             b' !! (f +:+ backup_suffix) = Some d.
Proof.
  revert r b. induction obs as [|g obs IH]; intros r b Hf Hb Hd.
  - exists b. done.
  - rewrite dispose_all_cons.
    assert (Hf' : files (dispose c g r) !! f = None).
    { rewrite dispose_files. apply lookup_delete_None. by right. }
    assert (Hb' : exists b1, backup_dir (dispose c g r) = Some b1 /\
                             b1 !! (f +:+ backup_suffix) = Some d).
    { unfold dispose. destruct (files r !! g) as [dg|] eqn:Hg; [|eauto].
      destruct (Backup c); simpl; [|eauto].
      eexists. split; [reflexivity|]. rewrite Hb. simpl.
      rewrite lookup_insert_ne; [done|].
      intros Heq. apply app_inj_suffix in Heq. congruence. }
    destruct Hb' as (b1 & Hb1 & Hd1). by eapply IH.
Qed.

Lemma dispose_all_backs_up (c : Config) (obs : list string)
    (r : RepoState) (f d : string) :
  Backup c = true -> f ∈ obs -> files r !! f = Some d ->
  exists b, backup_dir (dispose_all c obs r) = Some b /\
            b !! (f +:+ backup_suffix) = Some d.
Proof.
  intros Hb. revert r. induction obs as [|g obs IH]; intros r Hin Hf.
  - by apply elem_of_nil in Hin.
  - rewrite dispose_all_cons.
    destruct (decide (g = f)) as [->|Hne].
    + eapply dispose_all_keeps_backup.
      * rewrite dispose_files. apply lookup_delete_eq.
      * unfold dispose. rewrite Hf, Hb. reflexivity.
      * apply lookup_insert_eq.
    + apply elem_of_cons in Hin as [->|Hin]; [done|].
      apply IH; [done|]. rewrite dispose_files.
      by rewrite lookup_delete_ne.
Qed.

(** C6: the backup policy on a list of obsolete files.  In either mode
    every obsolete file is gone from the repository directory, the other
    files and the index are untouched.  With backup mode on, the contents
    of every obsolete file are in the backup subdirectory, which exists
    afterwards whether or not it did before, under the name of the file
    with the suffix [.bak] added; with backup mode off nothing is added
    to the backup: the files are deleted. *)
Theorem backup_policy (c : Config) (obsolete : list string) (r : RepoState) :
  let r' := dispose_all c obsolete r in
  (forall f, f ∈ obsolete -> files r' !! f = None) /\
  (forall g, g ∉ obsolete -> files r' !! g = files r !! g) /\
  index r' = index r /\
  (Backup c = true ->
   forall f d, f ∈ obsolete -> files r !! f = Some d ->
     exists b, backup_dir r' = Some b /\ b !! (f +:+ ".bak") = Some d) /\
  (Backup c = false -> backup_dir r' = backup_dir r).
Proof.
  intros r'. unfold r'. repeat split.
  - intros f. apply dispose_all_removes.
  - intros g. apply dispose_all_frame.
  - apply dispose_all_index.
  - intros Hb f d. by apply dispose_all_backs_up.
  - apply dispose_all_no_backup.
Qed.

Lemma backup_policy_witness :
  let r' := dispose_all (Sample.conf false true) [Sample.old_file]
              Sample.repo0 in
  files r' !! Sample.old_file = None /\
  exists b, backup_dir r' = Some b /\
            b !! "pkg-1.0-1-any.pkg.tar.xz.bak" = Some "old contents".
Proof.
  intros r'.
  pose proof (backup_policy (Sample.conf false true) [Sample.old_file]
                Sample.repo0) as (Hgone & _ & _ & Hbackup & _).
  split.
  - apply Hgone. in_list.
  - apply (Hbackup eq_refl Sample.old_file "old contents");
      [in_list|vm_compute; reflexivity].
Defined.




(** The executor never stops early: every mutation of the plan has its
    outcome in the report, in the order of the plan. *)
Lemma run_plan_attempts_all c confirm fails plan r :
  map fst (snd (run_plan c confirm fails plan r)) = plan.
Proof.
  revert r. induction plan as [|m rest IH]; intros r; [reflexivity|].
  simpl. destruct (step c confirm fails r m) as [r1 o].
  specialize (IH r1).
  destruct (run_plan c confirm fails rest r1) as [r' report].
  simpl in *. by rewrite IH.
Qed.

(** The last of the states a run goes through is the state it returns. *)
Lemma states_last c confirm fails plan r :
  last (states c confirm fails plan r)
  = Some (fst (run_plan c confirm fails plan r)).
Proof.
  revert r. induction plan as [|m rest IH]; intros r; [reflexivity|].
  simpl. destruct (step c confirm fails r m) as [r1 o] eqn:Hs.
  specialize (IH r1). simpl.
  destruct (run_plan c confirm fails rest r1) as [r' report]. simpl in *.
  rewrite <- IH. by destruct rest.
Qed.







(** The order matters: with the disposal first, the index refers for a
    while to a file that is gone, although nothing fails. *)
Lemma unsafe_order_breaks_index :
  exists r', r' ∈ states (Sample.conf false false) (fun _ => true)
                    Sample.never_fails
                    (replace_plan_unsafe "pkg" Sample.old_file
                                         Sample.new_file "new")
                    Sample.repo0 /\
             index r' !! "pkg" = Some Sample.old_file /\
             files r' !! Sample.old_file = None.
Proof.
  eexists. split.
  - simpl. apply elem_of_cons. right.
    apply elem_of_cons. left. reflexivity.
  - split; vm_compute; reflexivity.
Qed.

(** * Further properties of the front end *)

Lemma primary_output_app (tr1 tr2 : list event) :
  primary_output (tr1 ++ tr2) = primary_output tr1 ++ primary_output tr2.
Proof. unfold primary_output. apply filter_app. Qed.

Lemma error_output_app (tr1 tr2 : list event) :
  error_output (tr1 ++ tr2) = error_output tr1 ++ error_output tr2.
Proof. unfold error_output. apply filter_app. Qed.

Lemma error_output_all_stderr (tr : list event) :
  all_on Stderr tr -> error_output tr = tr.
Proof.
  unfold all_on, error_output. induction 1 as [|e tr He _ IH]; [done|].
  rewrite filter_cons, decide_True by done. by rewrite IH.
Qed.

Lemma Usage_on_stdout (c : option Config) :
  all_on Stdout (trace (Usage c)) /\ result (Usage c) = None.
Proof. split; [repeat constructor|reflexivity]. Qed.

Section FrontEndMore.

Variable defaultConfigPath : string.
Variable FileExists : string -> bool.
Variable DecodeFile : string -> error + IniConfig.
Variables Dir Base : string -> string.
Variables List Update Add Remove Status Filter : Action.

Abbreviation parsed := (parsedConfig defaultConfigPath).
Abbreviation acts := (actions List Update Add Remove Status Filter).
Abbreviation readConfig :=
  (ReadConfig defaultConfigPath FileExists DecodeFile Dir Base
              List Update Add Remove Status Filter).
Abbreviation run_main :=
  (main defaultConfigPath FileExists DecodeFile Dir Base
        List Update Add Remove Status Filter).
Abbreviation usable := (config_usable defaultConfigPath FileExists DecodeFile).

(** X1: with [-h] the program prints the usage on standard output and
    ends with status 0, whatever else is on the command line and
    whatever the configuration file is: [ReadConfig] prints nothing and
    returns [Usage] before it looks at the file or at the arguments. *)
Theorem help_short_circuits (cl : CommandLine) :
  opt_help cl = true ->
  readConfig cl = ([], (None, Some Usage, None)) /\
  run_main cl = (trace (Usage None), Returned) /\
  exit_status (result (run_main cl)) = 0%Z /\
  all_on Stdout (trace (run_main cl)).
Proof.
  intros Hh.
  assert (Hr : readConfig cl = ([], (None, Some Usage, None))).
  { unfold ReadConfig. by rewrite Hh. }
  assert (Hm : run_main cl = (trace (Usage None), Returned)).
  { unfold main. rewrite Hr. reflexivity. }
  rewrite Hm. repeat split; try done. apply Usage_on_stdout.
Qed.


(** The part of [ReadConfig] that does not depend on the positional
    arguments. *)
Lemma ReadConfig_positional (cl : CommandLine) (a b : string)
    (rest : list string) :
  acts !! a = acts !! b -> is_Some (acts !! a) ->
  readConfig (set_positional cl (a :: rest))
  = readConfig (set_positional cl (b :: rest)).
Proof.
  intros Hab [x Hx]. unfold ReadConfig, readIniInto, parsedConfig.
  cbn [opt_config opt_repo opt_columns opt_quiet opt_help opt_versioned
       opt_pending opt_duplicates opt_installed opt_outdated opt_all
       opt_interactive opt_backup positional set_positional].
  rewrite <- Hab, Hx. reflexivity.
Qed.

(** X3: [ls], [rm] and [usage] are synonyms of [list], [remove] and
    [help]: a command line gives the same run, output for output and with
    the same end, under a synonym as under the name it stands for. *)
Theorem aliases_are_synonyms (cl : CommandLine) (alias name : string)
    (rest : list string) :
  (alias, name) ∈ [("ls", "list"); ("rm", "remove"); ("usage", "help")] ->
  run_main (set_positional cl (alias :: rest))
  = run_main (set_positional cl (name :: rest)).
Proof.
  intros Hin. unfold main.
  rewrite (ReadConfig_positional cl alias name rest); [reflexivity| |].
  - repeat (apply elem_of_cons in Hin as [Hin|Hin];
            [injection Hin as -> ->; vm_compute; reflexivity|]).
    by apply elem_of_nil in Hin.
  - repeat (apply elem_of_cons in Hin as [Hin|Hin];
            [injection Hin as -> ->; vm_compute; eauto|]).
    by apply elem_of_nil in Hin.
Qed.


(** Read any field through the assignments made to a configuration. *)
Ltac fields_red :=
  cbn [ConfigFile Repository database path AddParameters RemoveParameters
       Quiet Columnate Versioned Mode Pending Duplicates Installed
       Synchronize Interactive Backup Args
       set_Repository set_database set_path set_AddParameters
       set_RemoveParameters set_Args set_allListOptions parsedConfig].

(** X4: the flags as they reach the action.  In the configuration
    [ReadConfig] returns, [-a] switches the five list options on whatever
    their own flags are, and without [-a] each is as its own flag gives
    it; the quiet, columns, interactive and backup flags and the name of
    the configuration file are always as given; [Mode] is left empty. *)
Theorem flags_reach_the_action (cl : CommandLine) (conf : Config)
    (cmd : option Action) (err : option error) :
  result (readConfig cl) = (Some conf, cmd, err) ->
  Quiet conf = opt_quiet cl /\
  Columnate conf = opt_columns cl /\
  Interactive conf = opt_interactive cl /\
  Backup conf = opt_backup cl /\
  ConfigFile conf = default defaultConfigPath (opt_config cl) /\
  Mode conf = "" /\
  (Versioned conf, Pending conf, Duplicates conf, Installed conf,
   Synchronize conf)
  = (if opt_all cl then (true, true, true, true, true)
     else (opt_versioned cl, opt_pending cl, opt_duplicates cl,
           opt_installed cl, opt_outdated cl)).
Proof.
  unfold result.
  read_config_cases; intros; simplify_eq; fields_red;
    repeat match goal with H : opt_all _ = _ |- _ => rewrite H end;
    repeat split; reflexivity.
Qed.

(** What [ReadConfig] returns together. *)
Lemma ReadConfig_shape (cl : CommandLine) (conf : option Config)
    (cmd : option Action) (err : option error) :
  result (readConfig cl) = (conf, cmd, err) ->
  match err with
  | Some _ => conf = None
  | None =>
      exists a, cmd = Some a /\
        (if opt_help cl then conf = None /\ a = Usage else is_Some conf)
  end.
Proof.
  unfold result.
  read_config_cases; intros; simplify_eq; eauto.
Qed.

(** X5: [main] never calls a nil function and never runs an action
    without a configuration.  [ReadConfig] returns no configuration
    together with an error; when it returns no error it returns an
    action, and a configuration with it unless the action is the [Usage]
    of [-h].  So [main] ends by returning or by [os.Exit(1)], never in a
    panic. *)
Theorem main_is_safe (cl : CommandLine) :
  (forall conf cmd err,
     result (readConfig cl) = (conf, cmd, Some err) -> conf = None) /\
  (forall conf cmd,
     result (readConfig cl) = (conf, cmd, None) ->
     exists a, cmd = Some a /\
       (if opt_help cl then conf = None /\ a = Usage else is_Some conf)) /\
  (result (run_main cl) = Returned \/ result (run_main cl) = Exit 1).
Proof.
  split; [|split].
  - intros conf cmd err Hr. by apply ReadConfig_shape in Hr.
  - intros conf cmd Hr. by apply ReadConfig_shape in Hr.
  - destruct (result (readConfig cl)) as [[conf cmd] [err|]] eqn:Hr.
    + right. by rewrite (main_on_error _ _ _ _ _ _ _ _ _ _ _ _ _ _ _ Hr).
    + left. destruct (ReadConfig_shape _ _ _ _ Hr) as (a & -> & _).
      by rewrite (main_on_success _ _ _ _ _ _ _ _ _ _ _ _ _ _ Hr).
Qed.

Lemma primary_output_all_stdout (tr : list event) :
  all_on Stdout tr -> primary_output tr = tr.
Proof.
  unfold all_on, primary_output. induction 1 as [|e tr He _ IH]; [done|].
  rewrite filter_cons, decide_True by done. by rewrite IH.
Qed.

Lemma error_output_all_stdout (tr : list event) :
  all_on Stdout tr -> error_output tr = [].
Proof.
  unfold all_on, error_output. induction 1 as [|e tr He _ IH]; [done|].
  rewrite filter_cons, decide_False; [exact IH|]. congruence.
Qed.

(** X6: a fatal error is reported on standard output.  When [ReadConfig]
    fails, standard output gets the line with the error, an empty line
    and the usage, in this order, and standard error gets only what
    [ReadConfig] had printed, that is, its warnings. *)
Theorem fatal_error_on_stdout (cl : CommandLine) (conf : option Config)
    (cmd : option Action) (err : error) :
  result (readConfig cl) = (conf, cmd, Some err) ->
  primary_output (trace (run_main cl))
  = [Fprintln Stdout [VString "Error:"; VError err]; Fprintln Stdout []]
      ++ trace (Usage None) /\
  error_output (trace (run_main cl)) = trace (readConfig cl).
Proof.
  intros Hr.
  rewrite (main_on_error _ _ _ _ _ _ _ _ _ _ _ _ _ _ _ Hr).
  pose proof (ReadConfig_trace_stderr defaultConfigPath FileExists DecodeFile
                Dir Base List Update Add Remove Status Filter cl) as Hs.
  assert (Ho : all_on Stdout
                 ([Fprintln Stdout [VString "Error:"; VError err];
                   Fprintln Stdout []] ++ trace (Usage None))).
  { repeat constructor. }
  change (trace (?a, Exit 1)) with a.
  split.
  - rewrite primary_output_app, (primary_output_all_stderr _ Hs).
    by rewrite primary_output_all_stdout.
  - rewrite error_output_app, (error_output_all_stderr _ Hs).
    by rewrite error_output_all_stdout, app_nil_r.
Qed.


(** X7: the warning about a missing repository is printed exactly when
    the default repository is used: when [--repo] gives nothing and the
    configuration file is absent or names no repository. *)
Theorem default_repository_warning (cl : CommandLine) :
  opt_help cl = false ->
  usable cl ->
  (Fprintf Stderr "Warning: missing repository, using %q.\n"
           [VString defaultRepo] ∈ trace (readConfig cl)
   <-> default "" (opt_repo cl) = "" /\
       (FileExists (ConfigFile (parsed cl)) = false \/
        exists ini, DecodeFile (ConfigFile (parsed cl)) = inr ini /\
                    Repo ini = "")).
Proof.
  intros Hh Hu. unfold config_usable in Hu. unfold trace.
  destruct Hu as [Hu|[ini Hu]]; revert Hu;
    read_config_cases; intros; simplify_eq;
    repeat match goal with
           | H : Repository _ = _ |- _ => cbn in H
           | H : Repository _ <> _ |- _ => cbn in H
           end;
    (split;
     [ intros Hin;
       repeat (apply elem_of_cons in Hin as [Hin|Hin]; [try discriminate|]);
       try (by apply elem_of_nil in Hin);
       try (split; [congruence|]; first [by left | right; eauto]);
       try congruence
     | intros [Hflag Hfile]; try in_list;
       try (destruct Hfile as [Hfile|(ini' & Hd & Hrepo)];
            simplify_eq; congruence) ]).
Qed.


End FrontEndMore.

(** ** The action table and the help text *)

Section TableMore.

Variables List Update Add Remove Status Filter : Action.

Abbreviation acts := (actions List Update Add Remove Status Filter).

(** X9: every name the action table accepts has its line in the help
    text that [Usage] prints.  The help text documents [reset] as well,
    which the table does not accept. *)
Theorem accepted_actions_are_documented :
  (forall cmd, is_Some (acts !! cmd) -> documented cmd = true) /\
  documented "reset" = true /\
  acts !! "reset" = None.
Proof.
  split; [|split].
  - intros cmd Hin. apply actions_dom in Hin. unfold action_names in Hin.
    repeat (apply elem_of_cons in Hin as [->|Hin];
            [vm_compute; reflexivity|]).
    by apply elem_of_nil in Hin.
  - vm_compute. reflexivity.
  - vm_compute. reflexivity.
Qed.

End TableMore.

(** ** [readIniInto] *)

Section ReadIni.

Variable DecodeFile : string -> error + IniConfig.

Abbreviation readIni := (readIniInto DecodeFile).

(** X10: [readIniInto] layers configuration files.  Reading the same
    file a second time changes nothing.  Of two files that decode, read
    one after the other, the repository is the first one given, by the
    configuration as it was, then by the first file, then by the second;
    the parameters are those of the second file. *)
Theorem readIniInto_layers :
  (forall file conf,
     readIni file (fst (readIni file conf)) = readIni file conf) /\
  (forall file1 file2 ini1 ini2 conf,
     DecodeFile file1 = inr ini1 ->
     DecodeFile file2 = inr ini2 ->
     let conf' := fst (readIni file2 (fst (readIni file1 conf))) in
     Repository conf' =
       (if decide (Repository conf = "") then
          if decide (Repo ini1 = "") then Repo ini2 else Repo ini1
        else Repository conf) /\
     AddParameters conf' = AddParam ini2 /\
     RemoveParameters conf' = RmParam ini2).
Proof.
  split.
  - intros file conf. unfold readIniInto.
    destruct (DecodeFile file) as [err|ini]; simpl; [reflexivity|].
    destruct conf as [cf repo db p ap rp q col v m pe du ins sy i b ar].
    simpl. destruct (decide (repo = "")) as [->|Hne]; simpl.
    + destruct (decide (Repo ini = "")) as [He|He]; simpl;
        [by rewrite He|reflexivity].
    + by rewrite decide_False.
  - intros file1 file2 ini1 ini2 conf H1 H2. unfold readIniInto.
    rewrite H1. simpl. rewrite H2. simpl.
    destruct conf as [cf repo db p ap rp q col v m pe du ins sy i b ar].
    simpl. destruct (decide (repo = "")) as [->|Hne]; simpl.
    + by destruct (decide (Repo ini1 = "")).
    + by rewrite decide_False.
Qed.

End ReadIni.

(** ** The further properties on concrete command lines *)

Lemma help_short_circuits_witness :
  let cl := Sample.flags (Some "/etc/broken.conf") true false
              ["frobnicate"] in
  Sample.DecodeFile "/etc/broken.conf" = inl "toml: cannot decode" /\
  Sample.run_main (Sample.ok "update") cl = (trace (Usage None), Returned).
Proof.
  intros cl. split; [reflexivity|].
  apply (help_short_circuits Sample.home_conf Sample.FileExists
           Sample.DecodeFile GoPath.Dir GoPath.Base
           (Sample.ok "list") (Sample.ok "update") (Sample.ok "add")
           (Sample.ok "remove") (Sample.ok "status") (Sample.ok "filter")
           cl eq_refl).
Defined.


Lemma aliases_are_synonyms_witness :
  let cl := Sample.flags None false false [] in
  Sample.run_main (Sample.ok "update") (set_positional cl ["rm"; "pkg"])
  = Sample.run_main (Sample.ok "update") (set_positional cl ["remove"; "pkg"]).
Proof.
  intros cl.
  apply (aliases_are_synonyms Sample.home_conf Sample.FileExists
           Sample.DecodeFile GoPath.Dir GoPath.Base
           (Sample.ok "list") (Sample.ok "update") (Sample.ok "add")
           (Sample.ok "remove") (Sample.ok "status") (Sample.ok "filter")
           cl "rm" "remove" ["pkg"]).
  in_list.
Defined.

Lemma flags_reach_the_action_witness :
  let cl := Sample.flags None false true ["list"] in
  exists conf,
    fst (fst (result (Sample.read_config cl))) = Some conf /\
    opt_versioned cl = false /\ Versioned conf = true /\
    Backup conf = true /\ Interactive conf = false.
Proof.
  intros cl. eexists. split; [reflexivity|].
  destruct (flags_reach_the_action Sample.home_conf Sample.FileExists
              Sample.DecodeFile GoPath.Dir GoPath.Base
              (Sample.ok "list") (Sample.ok "update") (Sample.ok "add")
              (Sample.ok "remove") (Sample.ok "status") (Sample.ok "filter")
              cl _ _ _ eq_refl)
    as (_ & _ & Hi & Hb & _ & _ & Hl).
  split; [reflexivity|]. split; [|split; [exact Hb|exact Hi]].
  exact (f_equal (fun t => fst (fst (fst (fst t)))) Hl).
Defined.

Lemma fatal_error_on_stdout_witness :
  let cl := Sample.flags (Some "/tmp/none.conf") false false [] in
  error_output (trace (Sample.run_main (Sample.ok "update") cl))
  = trace (Sample.read_config cl) /\
  length (trace (Sample.read_config cl)) = 2.
Proof.
  intros cl. split; [|reflexivity].
  apply (fatal_error_on_stdout Sample.home_conf Sample.FileExists
           Sample.DecodeFile GoPath.Dir GoPath.Base
           (Sample.ok "list") (Sample.ok "update") (Sample.ok "add")
           (Sample.ok "remove") (Sample.ok "status") (Sample.ok "filter")
           cl None (Some Usage) "no action specified on command line").
  reflexivity.
Defined.

Lemma default_repository_warning_witness :
  let cl := Sample.flags (Some "/tmp/none.conf") false false ["list"] in
  Fprintf Stderr "Warning: missing repository, using %q.\n"
          [VString defaultRepo] ∈ trace (Sample.read_config cl).
Proof.
  intros cl.
  apply (default_repository_warning Sample.home_conf Sample.FileExists
           Sample.DecodeFile GoPath.Dir GoPath.Base
           (Sample.ok "list") (Sample.ok "update") (Sample.ok "add")
           (Sample.ok "remove") (Sample.ok "status") (Sample.ok "filter")
           cl eq_refl).
  - left. reflexivity.
  - split; [reflexivity|]. left. reflexivity.
Defined.


Lemma accepted_actions_are_documented_witness :
  documented "rm" = true.
Proof.
  apply (proj1 (accepted_actions_are_documented
                  (Sample.ok "list") (Sample.ok "update") (Sample.ok "add")
                  (Sample.ok "remove") (Sample.ok "status")
                  (Sample.ok "filter")) "rm").
  vm_compute. eauto.
Defined.

Lemma readIniInto_layers_witness :
  let conf := fst (readIniInto Sample.DecodeTwo "second.conf"
                     (fst (readIniInto Sample.DecodeTwo "first.conf"
                             zeroConfig))) in
  Repository conf = "/srv/second.db.tar.gz" /\
  AddParameters conf = [] /\
  RemoveParameters conf = ["-v"].
Proof.
  intros conf.
  apply (proj2 (readIniInto_layers Sample.DecodeTwo)
           "first.conf" "second.conf"
           (mkIniConfig "" ["-s"] [])
           (mkIniConfig "/srv/second.db.tar.gz" [] ["-v"])
           zeroConfig eq_refl eq_refl).
Defined.
